(** * flightpi: the sighting logger ([flight_logger.py]) and the detail query
      ([web_server.py]), embedded in Rocq.

    The flights table is a list of rows in rowid order; a call of
    [log_flight] takes the reading of the clock, the sighting dict and the
    table, and returns the new table or the exception it raised.
    Timestamps are the ISO-8601 texts the code stores: SQLite compares them
    as text while Python subtracts the window from the parsed date, and the
    development relates the two.

    Further parts embed the list of recent flights, the event stream, the
    statistics, the cached ADSBdb lookup and the military feed of
    [web_server.py], and the sighting that the main loop of [flight.py]
    hands to the logger. *)

From Stdlib Require Import ZArith List String Ascii Bool Lia.
From Stdlib Require Import Sorted Permutation.
From Stdlib Require OrderedTypeEx Finite QArith.
Import ListNotations.
Local Open Scope string_scope.
Local Open Scope list_scope.
Local Open Scope Z_scope.

(* ===================================================================== *)
(** ** Text: Python [str] helpers and SQLite TEXT comparison              *)
(* ===================================================================== *)

(** A character is a code point below 256. *)
Definition code (c : ascii) : Z := Z.of_N (N_of_ascii c).
Definition chr (n : Z) : ascii := ascii_of_N (Z.to_N n).

(** [str.isspace] on code points below 256. *)
Definition isspace (c : ascii) : bool :=
  let n := code c in
  ((9 <=? n) && (n <=? 13)) || ((28 <=? n) && (n <=? 32))
  || (n =? 133) || (n =? 160).

Fixpoint lstrip (s : string) : string :=
  match s with
  | EmptyString => EmptyString
  | String c s' => if isspace c then lstrip s' else s
  end.

Fixpoint rstrip (s : string) : string :=
  match s with
  | EmptyString => EmptyString
  | String c s' =>
      match rstrip s' with
      | EmptyString => if isspace c then EmptyString else String c EmptyString
      | r => String c r
      end
  end.

(** [s.strip()] *)
Definition strip (s : string) : string := rstrip (lstrip s).

(** [s.upper()], on the ASCII letters (other characters are left alone). *)
Definition upper_char (c : ascii) : ascii :=
  let n := code c in
  if (97 <=? n) && (n <=? 122) then chr (n - 32) else c.

Fixpoint upper (s : string) : string :=
  match s with
  | EmptyString => EmptyString
  | String c s' => String (upper_char c) (upper s')
  end.

(** [s.replace(c, "")] for a one-character [c]. *)
Fixpoint remove_char (c : ascii) (s : string) : string :=
  match s with
  | EmptyString => EmptyString
  | String d s' =>
      if Ascii.eqb d c then remove_char c s' else String d (remove_char c s')
  end.

Definition is_empty (s : string) : bool :=
  match s with EmptyString => true | String _ _ => false end.

(** [x or d] for an optional string [x]: [None] and [""] are falsy. *)
Definition or_else (x : option string) (d : string) : string :=
  match x with
  | Some s => if is_empty s then d else s
  | None => d
  end.

(** SQLite compares TEXT values bytewise (BINARY collation). *)
Definition sql_ge (a b : string) : bool :=
  match String.compare a b with Lt => false | _ => true end.

Definition sql_lt (a b : string) : bool :=
  match String.compare a b with Lt => true | _ => false end.

(** [col = ?] on a nullable TEXT column: NULL is equal to nothing. *)
Definition sql_eq (col : option string) (v : string) : bool :=
  match col with Some s => String.eqb s v | None => false end.

(** SQL [NULLIF(a, b)] and [COALESCE(a, b)] on nullable TEXT. *)
Definition NULLIF (a : option string) (b : string) : option string :=
  match a with
  | Some s => if String.eqb s b then None else Some s
  | None => None
  end.

Definition COALESCE (a b : option string) : option string :=
  match a with Some _ => a | None => b end.

(* ===================================================================== *)
(** ** Python [datetime], to the second                                   *)
(* ===================================================================== *)

Record datetime : Type := mkdt {
  year : Z; month : Z; day : Z; hour : Z; minute : Z; second : Z
}.

Definition is_leap (y : Z) : bool :=
  (y mod 4 =? 0) && (negb (y mod 100 =? 0) || (y mod 400 =? 0)).

Definition days_in_month (y m : Z) : Z :=
  match m with
  | 1 => 31 | 2 => if is_leap y then 29 else 28 | 3 => 31 | 4 => 30
  | 5 => 31 | 6 => 30 | 7 => 31 | 8 => 31 | 9 => 30 | 10 => 31
  | 11 => 30 | 12 => 31
  | _ => 0
  end.

Definition days_before_month (y m : Z) : Z :=
  match m with
  | 1 => 0 | 2 => 31 | 3 => 59 | 4 => 90 | 5 => 120 | 6 => 151
  | 7 => 181 | 8 => 212 | 9 => 243 | 10 => 273 | 11 => 304 | 12 => 334
  | _ => 0
  end + (if (2 <? m) && is_leap y then 1 else 0).

Definition days_before_year (y : Z) : Z :=
  let p := y - 1 in p * 365 + p / 4 - p / 100 + p / 400.

(** [date.toordinal]: 0001-01-01 is day 1. *)
Definition toordinal (dt : datetime) : Z :=
  days_before_year (year dt) + days_before_month (year dt) (month dt) + day dt.

(** Seconds elapsed since the midnight that starts day 0. *)
Definition seconds (dt : datetime) : Z :=
  toordinal dt * 86400 + hour dt * 3600 + minute dt * 60 + second dt.

(** The field ranges the [datetime] constructor enforces. *)
Definition dt_valid (dt : datetime) : bool :=
  (1 <=? year dt) && (year dt <=? 9999)
  && (1 <=? month dt) && (month dt <=? 12)
  && (1 <=? day dt) && (day dt <=? days_in_month (year dt) (month dt))
  && (0 <=? hour dt) && (hour dt <=? 23)
  && (0 <=? minute dt) && (minute dt <=? 59)
  && (0 <=? second dt) && (second dt <=? 59).

Definition digit_val (c : ascii) : option Z :=
  let n := code c in
  if (48 <=? n) && (n <=? 57) then Some (n - 48) else None.

Definition digit_char (d : Z) : ascii := chr (48 + d).

Definition number2 (a b : ascii) : option Z :=
  match digit_val a, digit_val b with
  | Some x, Some y => Some (10 * x + y)
  | _, _ => None
  end.

Definition number4 (a b c d : ascii) : option Z :=
  match number2 a b, number2 c d with
  | Some x, Some y => Some (100 * x + y)
  | _, _ => None
  end.

Definition pad2 (n : Z) (rest : string) : string :=
  String (digit_char (n / 10)) (String (digit_char (n mod 10)) rest).

Definition pad4 (n : Z) (rest : string) : string :=
  pad2 (n / 100) (pad2 (n mod 100) rest).

(** [dt.isoformat(timespec="seconds")]: [YYYY-MM-DDTHH:MM:SS]. *)
Definition isoformat (dt : datetime) : string :=
  pad4 (year dt) (String "-" (pad2 (month dt) (String "-" (pad2 (day dt)
    (String "T" (pad2 (hour dt) (String ":" (pad2 (minute dt)
      (String ":" (pad2 (second dt) EmptyString))))))))))%char.

(** [datetime.fromisoformat], on the layout [YYYY-MM-DDTHH:MM:SS] that
    [isoformat(timespec="seconds")] writes, which is the layout of every
    timestamp the repository produces (flight.py:480, flight_logger.py:85,
    98, 180).  [None] stands for the [ValueError] of a text that is not a
    timestamp.  The other ISO layouts Python's parser reads (a space for
    the [T], fractions of a second, an offset) are not modelled: here they
    count as no timestamp, and the statements about times are about
    sightings and rows stamped in this layout. *)
Definition fromisoformat (s : string) : option datetime :=
  match list_ascii_of_string s with
  | [y1; y2; y3; y4; a; m1; m2; b; d1; d2; t; h1; h2; p; n1; n2; q; s1; s2] =>
      match number4 y1 y2 y3 y4, number2 m1 m2, number2 d1 d2,
            number2 h1 h2, number2 n1 n2, number2 s1 s2 with
      | Some y, Some m, Some d, Some hh, Some mm, Some ss =>
          let dt := mkdt y m d hh mm ss in
          if Ascii.eqb a "-" && Ascii.eqb b "-" && Ascii.eqb t "T"
             && Ascii.eqb p ":" && Ascii.eqb q ":" && dt_valid dt
          then Some dt else None
      | _, _, _, _, _, _ => None
      end
  | _ => None
  end.

(** The day before a date; [None] before 0001-01-01. *)
Definition prev_day (y m d : Z) : option (Z * Z * Z) :=
  if 1 <? d then Some (y, m, d - 1)
  else if 1 <? m then Some (y, m - 1, days_in_month y (m - 1))
  else if 1 <? y then Some (y - 1, 12, 31)
  else None.

(** [dt - timedelta(minutes=n)] for [0 <= n <= 1440]; [None] stands for the
    [OverflowError] of a result before [datetime.min]. *)
Definition minus_minutes (dt : datetime) (n : Z) : option datetime :=
  let m := hour dt * 60 + minute dt - n in
  if 0 <=? m then
    Some (mkdt (year dt) (month dt) (day dt) (m / 60) (m mod 60) (second dt))
  else
    match prev_day (year dt) (month dt) (day dt) with
    | Some (y, mo, d) =>
        Some (mkdt y mo d ((m + 1440) / 60) ((m + 1440) mod 60) (second dt))
    | None => None
    end.

(** The time a stored text denotes, when it is a timestamp. *)
Definition timestamp (s : string) : option Z :=
  option_map seconds (fromisoformat s).

(** The time within the day, in seconds. *)
Definition time_of_day (dt : datetime) : Z :=
  hour dt * 3600 + minute dt * 60 + second dt.

(** The comparison of two dates field by field, most significant first. *)
Definition then_ (c d : comparison) : comparison :=
  match c with Eq => d | _ => c end.

Definition compare_fields (a b : datetime) : comparison :=
  then_ (year a ?= year b) (then_ (month a ?= month b)
    (then_ (day a ?= day b) (then_ (hour a ?= hour b)
      (then_ (minute a ?= minute b) (second a ?= second b))))).

(* ===================================================================== *)
(** ** The sighting dict and the rows of the flights table                *)
(* ===================================================================== *)

(** A JSON number of the feed; the logger only copies it. *)
Definition reading : Type := option Z.

(** The dict [row] that [flight.py] hands to [log_flight]; a key that is
    absent or [None] reads as [None] ([row.get]). *)
Module Row.
Record t : Type := mk {
  seen_at : option string;
  hex : option string;
  reg : option string;
  callsign : option string;
  type_code : option string;
  model : option string;
  manufacturer : option string;
  country : option string;
  country_iso : option string;
  owner : option string;
  airline_name : option string;
  origin_iata : option string;
  origin_name : option string;
  dest_iata : option string;
  dest_name : option string;
  altitude_ft : reading;
  ground_speed_kt : reading;
  distance_nm : reading;
  heading_deg : reading
}.

(** [row["seen_at"] = v] *)
Definition set_seen_at (v : string) (r : t) : t :=
  mk (Some v) (hex r) (reg r) (callsign r) (type_code r) (model r)
     (manufacturer r) (country r) (country_iso r) (owner r)
     (airline_name r) (origin_iata r) (origin_name r) (dest_iata r)
     (dest_name r) (altitude_ft r) (ground_speed_kt r) (distance_nm r)
     (heading_deg r).
End Row.

(** A row of table [flights] ([init_db]).  The four columns the logger
    always fills with a text ([seen_at], [event_key], [first_seen],
    [last_seen]) and the counter are not nullable here. *)
Module Flight.
Record t : Type := mk {
  id : Z;
  seen_at : string;
  hex : option string;
  reg : option string;
  callsign : option string;
  type_code : option string;
  model : option string;
  manufacturer : option string;
  country : option string;
  country_iso : option string;
  owner : option string;
  airline_name : option string;
  origin_iata : option string;
  origin_name : option string;
  dest_iata : option string;
  dest_name : option string;
  altitude_ft : reading;
  ground_speed_kt : reading;
  distance_nm : reading;
  heading_deg : reading;
  event_key : string;
  first_seen : string;
  last_seen : string;
  times_seen : Z
}.
End Flight.

(** The table, in rowid order. *)
Definition table : Type := list Flight.t.

Definition ids (db : table) : list Z := map Flight.id db.

(** The row with primary key [i]. *)
Definition row_of (i : Z) (db : table) : option Flight.t :=
  find (fun f => Flight.id f =? i) db.

(* ===================================================================== *)
(** ** flight_logger.py                                                   *)
(* ===================================================================== *)

Definition EVENT_WINDOW_MINUTES : Z := 20.

(** [init_db]: CREATE TABLE IF NOT EXISTS leaves the rows as they are (a
    table that does not exist yet is the empty table). *)
Definition init_db (db : table) : table := db.

Definition _build_event_key (row : Row.t) : string :=
  let hex_ := strip (or_else (Row.hex row) "") in
  let reg := strip (or_else (Row.reg row) "") in
  let cs := strip (or_else (Row.callsign row) "") in
  (hex_ ++ "|" ++ reg ++ "|" ++ cs)%string.

(** [not event_key.replace("|", "")] *)
Definition degenerate (event_key : string) : bool :=
  is_empty (remove_char "|" event_key).

(** INTEGER PRIMARY KEY AUTOINCREMENT: one more than the largest rowid
    (no row is ever deleted). *)
Definition next_id (db : table) : Z := 1 + fold_right Z.max 0 (ids db).

(** The row [_insert_new_event] writes. *)
Definition new_event (i : Z) (seen_at : string) (row : Row.t)
    (event_key : string) : Flight.t :=
  Flight.mk i seen_at (Row.hex row) (Row.reg row) (Row.callsign row)
    (Row.type_code row) (Row.model row) (Row.manufacturer row)
    (Row.country row) (Row.country_iso row) (Row.owner row)
    (Row.airline_name row) (Row.origin_iata row) (Row.origin_name row)
    (Row.dest_iata row) (Row.dest_name row) (Row.altitude_ft row)
    (Row.ground_speed_kt row) (Row.distance_nm row) (Row.heading_deg row)
    event_key seen_at seen_at 1.

(** [now] is the text [datetime.now().isoformat(timespec="seconds")]
    returns when the function reads the clock. *)
Definition _insert_new_event (now : string) (row : Row.t)
    (event_key : string) (db : table) : table :=
  let seen_at := or_else (Row.seen_at row) now in
  db ++ [new_event (next_id db) seen_at row event_key].

(** WHERE event_key = ? AND last_seen >= ? *)
Definition in_window (event_key cutoff_iso : string) (f : Flight.t) : bool :=
  String.eqb (Flight.event_key f) event_key
  && sql_ge (Flight.last_seen f) cutoff_iso.

(** ORDER BY last_seen DESC LIMIT 1.  SQLite leaves the choice among rows
    with equal [last_seen] open; the lowest rowid is taken here. *)
Fixpoint freshest (l : list Flight.t) : option Flight.t :=
  match l with
  | [] => None
  | f :: rest =>
      match freshest rest with
      | Some g =>
          if sql_lt (Flight.last_seen f) (Flight.last_seen g)
          then Some g else Some f
      | None => Some f
      end
  end.

(** The SELECT of [log_flight]. *)
Definition select_recent (event_key cutoff_iso : string) (db : table)
    : option Flight.t :=
  freshest (filter (in_window event_key cutoff_iso) db).

(** The SET clause of the UPDATE of [log_flight], on one row. *)
Definition update_event (seen_at : string) (row : Row.t) (f : Flight.t)
    : Flight.t :=
  let keep old new := COALESCE (NULLIF old "") new in
  Flight.mk (Flight.id f) seen_at (Flight.hex f) (Flight.reg f)
    (Flight.callsign f) (Flight.type_code f)
    (keep (Flight.model f) (Row.model row))
    (keep (Flight.manufacturer f) (Row.manufacturer row))
    (keep (Flight.country f) (Row.country row))
    (keep (Flight.country_iso f) (Row.country_iso row))
    (keep (Flight.owner f) (Row.owner row))
    (keep (Flight.airline_name f) (Row.airline_name row))
    (keep (Flight.origin_iata f) (Row.origin_iata row))
    (keep (Flight.origin_name f) (Row.origin_name row))
    (keep (Flight.dest_iata f) (Row.dest_iata row))
    (keep (Flight.dest_name f) (Row.dest_name row))
    (Row.altitude_ft row) (Row.ground_speed_kt row) (Row.distance_nm row)
    (Row.heading_deg row)
    (Flight.event_key f) (Flight.first_seen f) seen_at
    (Flight.times_seen f + 1).

(** UPDATE flights SET ... WHERE id = ? *)
Definition update_where_id (i : Z) (seen_at : string) (row : Row.t)
    (db : table) : table :=
  map (fun f => if Flight.id f =? i then update_event seen_at row f else f) db.

Inductive exn : Type := ValueError | OverflowError.

(** What a call does: it returns, leaving the table [t], or raises. *)
Inductive outcome : Type :=
  | Done (t : table)
  | Raised (e : exn).

Definition log_flight (now : string) (row : Row.t) (db : table) : outcome :=
  let db := init_db db in
  let seen_at := Row.seen_at row in
  let '(seen_at, row) :=
    match seen_at with
    | Some s => if is_empty s then (now, Row.set_seen_at now row) else (s, row)
    | None => (now, Row.set_seen_at now row)
    end in
  let event_key := _build_event_key row in
  if degenerate event_key then Done (_insert_new_event now row event_key db)
  else
    match fromisoformat seen_at with
    | None => Raised ValueError
    | Some seen_dt =>
        match minus_minutes seen_dt EVENT_WINDOW_MINUTES with
        | None => Raised OverflowError
        | Some cutoff_dt =>
            let cutoff_iso := isoformat cutoff_dt in
            match select_recent event_key cutoff_iso db with
            | Some m =>
                Done (update_where_id (Flight.id m) seen_at row db)
            | None => Done (_insert_new_event now row event_key db)
            end
        end
    end.

(** The timestamp a call works with: [seen_at], or the clock. *)
Definition observed_at (now : string) (row : Row.t) : string :=
  or_else (Row.seen_at row) now.

(** One call of the logger: the clock reading and the sighting. *)
Definition call : Type := (string * Row.t)%type.

(** flight.py, main loop: [try: log_flight(row) except Exception: pass];
    a call that raises leaves the table as it was. *)
Definition log_quietly (db : table) (c : call) : table :=
  match log_flight (fst c) (snd c) db with
  | Done db' => db'
  | Raised _ => db
  end.

Definition run (calls : list call) (db : table) : table :=
  fold_left log_quietly calls db.


(* ===================================================================== *)
(** ** web_server.py: [get_flight_detail]                                 *)
(* ===================================================================== *)

Module Detail.
Record t : Type := mk {
  seen_at : string;
  hex : option string;
  reg : option string;
  callsign : option string;
  type_code : option string;
  model : option string;
  manufacturer : option string;
  country : option string;
  country_iso : option string;
  owner : option string;
  airline_name : option string;
  origin_iata : option string;
  origin_name : option string;
  dest_iata : option string;
  dest_name : option string;
  altitude_ft : reading;
  ground_speed_kt : reading;
  distance_nm : reading;
  heading_deg : reading;
  total_seen : Z;
  first_seen : option string;
  last_seen : option string
}.
End Detail.

(** The WHERE clause built from the two arguments (already normalised):
    [reg = ?] and [hex = ?], each only when its argument is not empty. *)
Definition where_ (reg hex_code : string) (f : Flight.t) : bool :=
  (if is_empty reg then true else sql_eq (Flight.reg f) reg)
  && (if is_empty hex_code then true else sql_eq (Flight.hex f) hex_code).

(** MIN(seen_at) and MAX(seen_at): NULL over no rows. *)
Fixpoint min_seen_at (l : list Flight.t) : option string :=
  match l with
  | [] => None
  | f :: rest =>
      match min_seen_at rest with
      | Some s => if sql_lt s (Flight.seen_at f) then Some s
                  else Some (Flight.seen_at f)
      | None => Some (Flight.seen_at f)
      end
  end.

Fixpoint max_seen_at (l : list Flight.t) : option string :=
  match l with
  | [] => None
  | f :: rest =>
      match max_seen_at rest with
      | Some s => if sql_lt (Flight.seen_at f) s then Some s
                  else Some (Flight.seen_at f)
      | None => Some (Flight.seen_at f)
      end
  end.

(** ORDER BY id DESC LIMIT 1 *)
Fixpoint last_by_id (l : list Flight.t) : option Flight.t :=
  match l with
  | [] => None
  | f :: rest =>
      match last_by_id rest with
      | Some g => if Flight.id f <? Flight.id g then Some g else Some f
      | None => Some f
      end
  end.

(** [detail = dict(last_row)] with the three aggregates added. *)
Definition detail_of (r : Flight.t) (total_seen : Z)
    (first_seen last_seen : option string) : Detail.t :=
  Detail.mk (Flight.seen_at r) (Flight.hex r) (Flight.reg r)
    (Flight.callsign r) (Flight.type_code r) (Flight.model r)
    (Flight.manufacturer r) (Flight.country r) (Flight.country_iso r)
    (Flight.owner r) (Flight.airline_name r) (Flight.origin_iata r)
    (Flight.origin_name r) (Flight.dest_iata r) (Flight.dest_name r)
    (Flight.altitude_ft r) (Flight.ground_speed_kt r) (Flight.distance_nm r)
    (Flight.heading_deg r) total_seen first_seen last_seen.

Definition get_flight_detail (reg hex_code : option string) (db : table)
    : option Detail.t :=
  let reg := upper (strip (or_else reg "")) in
  let hex_code := upper (strip (or_else hex_code "")) in
  if is_empty reg && is_empty hex_code then None
  else
    let rows := filter (where_ reg hex_code) db in
    (* COUNT( * ), MIN(seen_at), MAX(seen_at) *)
    let total_seen := Z.of_nat (List.length rows) in
    let first_seen := min_seen_at rows in
    let last_seen := max_seen_at rows in
    match last_by_id rows with
    | None => None
    | Some last_row => Some (detail_of last_row total_seen first_seen last_seen)
    end.

(* ===================================================================== *)
(** ** Notions the statements are written with                            *)
(* ===================================================================== *)

(** The length of the coalescing window, in seconds. *)
Definition WINDOW : Z := 60 * EVENT_WINDOW_MINUTES.

(** Two stored texts are timestamps, the first not after the second. *)
Definition stamp_le (a b : string) : Prop :=
  exists ta tb, timestamp a = Some ta /\ timestamp b = Some tb /\ ta <= tb.

(** The text a call works with, and the time it denotes when it is a
    timestamp. *)
Definition call_stamp (c : call) : string := observed_at (fst c) (snd c).

Definition call_time (c : call) : option Z := timestamp (call_stamp c).

(** The calls carry well-formed timestamps that never go back in time,
    none before [lo]. *)
Fixpoint chronological_from (lo : Z) (calls : list call) : bool :=
  match calls with
  | [] => true
  | c :: rest =>
      match call_time c with
      | Some t => (lo <=? t) && chronological_from t rest
      | None => false
      end
  end.

Definition chronological (calls : list call) : bool :=
  chronological_from 0 calls.


(** The stored events of a key that are open at query time [q]: those the
    window lookup accepts, [last_seen >= q - WINDOW]. *)
Definition open_at (q : Z) (f : Flight.t) : bool :=
  match timestamp (Flight.last_seen f) with
  | Some t => q - WINDOW <=? t
  | None => false
  end.

Definition open_events (event_key : string) (q : Z) (db : table)
    : list Flight.t :=
  filter (fun f => String.eqb (Flight.event_key f) event_key && open_at q f) db.

(** A value that is empty or absent: [""], [None], NULL. *)
Definition blank (x : option string) : bool :=
  match x with
  | Some s => is_empty s
  | None => true
  end.


(** The sticky-merge rule on one descriptive field: a value that is there
    stays, an empty field takes the new value. *)
Definition sticky (old new result : option string) : Prop :=
  (blank old = false -> result = old)
  /\ (blank old = true -> result = new).

(** The call opens event [i]: it adds one row, the one with key [i]. *)
Definition opens (i : Z) (c : call) (db : table) : Prop :=
  exists db', log_flight (fst c) (snd c) db = Done db'
    /\ List.length db' = S (List.length db)
    /\ row_of i db = None /\ row_of i db' <> None.

(** The call coalesces into event [i]: it adds no row and row [i] is no
    longer what it was. *)
Definition coalesces_into (i : Z) (c : call) (db : table) : Prop :=
  exists db', log_flight (fst c) (snd c) db = Done db'
    /\ List.length db' = List.length db
    /\ row_of i db' <> row_of i db.

Fixpoint all_coalesce_into (i : Z) (calls : list call) (db : table) : Prop :=
  match calls with
  | [] => True
  | c :: rest =>
      coalesces_into i c db /\ all_coalesce_into i rest (log_quietly db c)
  end.

(** The sum of [times_seen] over rows. *)
Definition sum_times_seen (l : list Flight.t) : Z :=
  fold_right (fun f acc => Flight.times_seen f + acc) 0 l.

(** The time of the last of the calls, [hi] when there is none. *)
Fixpoint latest (hi : Z) (calls : list call) : Z :=
  match calls with
  | [] => hi
  | c :: rest =>
      match call_time c with
      | Some t => latest t rest
      | None => hi
      end
  end.

(** What calls in chronological order, none after time [hi], leave: a
    table with a primary key whose rows carry timestamps with
    [first_seen <= last_seen <= hi]. *)
Definition stamped (hi : Z) (db : table) : Prop :=
  NoDup (ids db)
  /\ (forall f, In f db ->
        exists t1 t2,
          timestamp (Flight.first_seen f) = Some t1
          /\ timestamp (Flight.last_seen f) = Some t2 /\ t1 <= t2 <= hi).


(* ===================================================================== *)
(** ** Further notions: identities, counts, the life of a row            *)
(* ===================================================================== *)

(** The character [c] occurs in [s]. *)
Fixpoint has_char (c : ascii) (s : string) : bool :=
  match s with
  | EmptyString => false
  | String d s' => Ascii.eqb d c || has_char c s'
  end.

(** The three identity fields as [_build_event_key] reads them. *)
Definition identity (row : Row.t) : string * string * string :=
  (strip (or_else (Row.hex row) ""), strip (or_else (Row.reg row) ""),
   strip (or_else (Row.callsign row) "")).

(** The identity columns of a stored row, read the same way. *)
Definition stored_identity (f : Flight.t) : string * string * string :=
  (strip (or_else (Flight.hex f) ""), strip (or_else (Flight.reg f) ""),
   strip (or_else (Flight.callsign f) "")).

Definition key_of (i : string * string * string) : string :=
  let '(h, r, c) := i in (h ++ "|" ++ r ++ "|" ++ c)%string.

(** The calls of a run that return, counted along the run. *)
Fixpoint returns (calls : list call) (db : table) : Z :=
  match calls with
  | [] => 0
  | c :: rest =>
      (match log_flight (fst c) (snd c) db with
       | Done _ => 1
       | Raised _ => 0
       end) + returns rest (log_quietly db c)
  end.

(** A descriptive column keeps a value that is there. *)
Definition kept (old new : option string) : Prop :=
  blank old = false -> new = old.

(** What a stored row keeps for life: its key, the columns only the
    INSERT writes, every descriptive value once it is there; and its
    counter only grows. *)
Definition same_event (m m' : Flight.t) : Prop :=
  Flight.id m' = Flight.id m
  /\ Flight.hex m' = Flight.hex m
  /\ Flight.reg m' = Flight.reg m
  /\ Flight.callsign m' = Flight.callsign m
  /\ Flight.type_code m' = Flight.type_code m
  /\ Flight.event_key m' = Flight.event_key m
  /\ Flight.first_seen m' = Flight.first_seen m
  /\ Flight.times_seen m <= Flight.times_seen m'
  /\ kept (Flight.model m) (Flight.model m')
  /\ kept (Flight.manufacturer m) (Flight.manufacturer m')
  /\ kept (Flight.country m) (Flight.country m')
  /\ kept (Flight.country_iso m) (Flight.country_iso m')
  /\ kept (Flight.owner m) (Flight.owner m')
  /\ kept (Flight.airline_name m) (Flight.airline_name m')
  /\ kept (Flight.origin_iata m) (Flight.origin_iata m')
  /\ kept (Flight.origin_name m) (Flight.origin_name m')
  /\ kept (Flight.dest_iata m) (Flight.dest_iata m')
  /\ kept (Flight.dest_name m) (Flight.dest_name m').

(** The ids are 1, 2, ... in row order. *)
Definition numbered (db : table) : Prop :=
  ids db = map Z.of_nat (seq 1 (List.length db)).

(* ===================================================================== *)
(** ** web_server.py: [get_recent_flights] and the [/events] stream       *)
(* ===================================================================== *)

(** ORDER BY id DESC: the rows sorted by decreasing id. *)
Fixpoint insert_desc (f : Flight.t) (l : list Flight.t) : list Flight.t :=
  match l with
  | [] => [f]
  | g :: rest =>
      if Flight.id g <? Flight.id f then f :: l
      else g :: insert_desc f rest
  end.

Definition ORDER_BY_id_DESC (rows : list Flight.t) : list Flight.t :=
  fold_right insert_desc [] rows.

(** LIMIT ?: SQLite puts no bound on the rows when the limit is
    negative. *)
Definition LIMIT {A : Type} (n : Z) (rows : list A) : list A :=
  if n <? 0 then rows else firstn (Z.to_nat n) rows.

(** The integers [sqlite3] binds as a parameter: those of 64 bits; a
    larger Python int raises OverflowError. *)
Definition sqlite_integer (n : Z) : bool :=
  (- 2 ^ 63 <=? n) && (n <? 2 ^ 63).

(** The rows returned, or the exception raised. *)
Definition get_recent_flights (limit : Z) (db : table)
    : list Flight.t + exn :=
  if sqlite_integer limit then inl (LIMIT limit (ORDER_BY_id_DESC db))
  else inr OverflowError.

(** One turn of the loop of [gen] in [sse_events]: the newest row is read
    (SELECT ... ORDER BY id DESC LIMIT 1) and yielded when its id is not
    [last_id]; the result is the new [last_id] and the row yielded, if
    any (the row stands for the [data:] line that carries it as JSON). *)
Definition sse_turn (last_id : option Z) (db : table)
    : option Z * option Flight.t :=
  match last_by_id db with
  | Some row =>
      let rid := Flight.id row in
      if match last_id with Some i => rid =? i | None => false end
      then (last_id, None)
      else (Some rid, Some row)
  | None => (last_id, None)
  end.

(** The turns of [gen] over the tables the successive polls find: what
    each turn yields. *)
Fixpoint gen (last_id : option Z) (polls : list table)
    : list (option Flight.t) :=
  match polls with
  | [] => []
  | db :: rest =>
      let '(last_id', yielded) := sse_turn last_id db in
      yielded :: gen last_id' rest
  end.

(** The tables the polls find when the logger handles one batch of calls
    between two polls. *)
Fixpoint polled (batches : list (list call)) (db : table) : list table :=
  match batches with
  | [] => []
  | calls :: rest => run calls db :: polled rest (run calls db)
  end.

(** What the stream is to push: at each poll the last row of the table
    when the table has grown since the poll before, nothing otherwise. *)
Fixpoint new_events (before : table) (polls : list table)
    : list (option Flight.t) :=
  match polls with
  | [] => []
  | db :: rest =>
      (if (List.length before <? List.length db)%nat
       then last (map Some db) None else None)
      :: new_events db rest
  end.

(** [f] has the greater id. *)
Definition newer (f g : Flight.t) : Prop := Flight.id g < Flight.id f.

(** The [last_id] of the stream after a poll that found [db], on a table
    with the ids 1, 2, ...: the number of rows. *)
Definition seen_up_to (db : table) : option Z :=
  match db with
  | [] => None
  | _ => Some (Z.of_nat (List.length db))
  end.

(* ===================================================================== *)
(** ** JSON scalars, as Python sees them                                  *)
(* ===================================================================== *)

(** The values the feeds carry in the fields the code reads: null, a
    boolean, a number (an int or a finite float, both rationals) or text.
    A key that is missing reads as null ([ac.get(k)]). *)
Inductive json : Type :=
| JNull
| JBool (b : bool)
| JNum (q : QArith_base.Q)
| JStr (s : string).

(** The number a boolean or a number is in a comparison ([True == 1]). *)
Definition number (x : json) : option QArith_base.Q :=
  match x with
  | JBool b => Some (if b then QArith_base.Qmake 1 1 else QArith_base.Qmake 0 1)
  | JNum q => Some q
  | _ => None
  end.

(** Truthiness: null, [False], zero and the empty text are falsy. *)
Definition truthy (x : json) : bool :=
  match x with
  | JNull => false
  | JBool b => b
  | JNum q => negb (QArith_base.Qeq_bool q (QArith_base.Qmake 0 1))
  | JStr s => negb (is_empty s)
  end.

(** [x or y] *)
Definition or_ (x y : json) : json := if truthy x then x else y.

(** [x < y]: numbers with numbers, text with text (by code points);
    [None] stands for the TypeError of every other pair. *)
Definition py_lt (x y : json) : option bool :=
  match x, y with
  | JStr a, JStr b => Some (sql_lt a b)
  | _, _ =>
      match number x, number y with
      | Some p, Some q => Some (negb (QArith_base.Qle_bool q p))
      | _, _ => None
      end
  end.

(* ===================================================================== *)
(** ** web_server.py: the cached ADSBdb lookup                            *)
(* ===================================================================== *)

(** The [aircraft] object of an ADSBdb answer, in the fields read. *)
Module Adsbdb.
Record t : Type := mk {
  type_ : json;
  icao_type : json;
  manufacturer : json;
  mode_s : json;
  registered_owner_country_iso_name : json;
  registered_owner_country_name : json;
  registered_owner : json
}.
End Adsbdb.

(** The dicts [get_mil_aircraft_details] returns. *)
Inductive details : Type :=
| no_hex                          (* {"error": "no_hex"} *)
| not_found (hex : string)        (* {"hex": hex, "found": False} *)
| found (hex : string)
    (type_ icao_type manufacturer mode_s country_iso country_name owner : json)
| lookup_failed (hex : string).   (* {..., "found": False, "error": ...} *)

(** The cache: a dict from hex codes to entries, in insertion order. *)
Definition mil_cache : Type := list (string * details).

Fixpoint dict_get (k : string) (d : mil_cache) : option details :=
  match d with
  | [] => None
  | (k', v) :: rest => if String.eqb k' k then Some v else dict_get k rest
  end.

(** [d[k] = v] *)
Fixpoint dict_set (k : string) (v : details) (d : mil_cache) : mil_cache :=
  match d with
  | [] => [(k, v)]
  | (k', v') :: rest =>
      if String.eqb k' k then (k', v) :: rest
      else (k', v') :: dict_set k v rest
  end.

(** mil_cache.json: not there, there but not a JSON object that can be
    read, or holding a dict. *)
Inductive cache_file : Type :=
| Missing
| Unusable
| Holding (c : mil_cache).

Definition load_mil_cache (file : cache_file) : mil_cache :=
  match file with
  | Holding c => c
  | Missing | Unusable => []
  end.

(** [save_mil_cache]: the file is replaced in one step ([os.replace]), or
    the write raises and the file is as it was. *)
Definition save_mil_cache (c : mil_cache) (disk_ok : bool) (file : cache_file)
    : option cache_file :=
  if disk_ok then Some (Holding c) else None.

(** What the request to ADSBdb comes to: an exception anywhere between
    [requests.get] and the reading of the answer, or the answer's
    [aircraft] object ([None] when it is missing or empty). *)
Inductive answer : Type :=
| Failed
| Answered (ac : option Adsbdb.t).

(** The result and the cache file after the call. *)
Definition get_mil_aircraft_details (hex_code : option string)
    (file : cache_file) (net : answer) (disk_ok : bool)
    : details * cache_file :=
  let hex_code := upper (strip (or_else hex_code "")) in
  if is_empty hex_code then (no_hex, file)
  else
    let cache := load_mil_cache file in
    match dict_get hex_code cache with
    | Some entry => (entry, file)
    | None =>
        let failed (cache : mil_cache) :=
          match dict_get hex_code cache with
          | Some entry => entry
          | None => lookup_failed hex_code
          end in
        match net with
        | Failed => (failed cache, file)
        | Answered ac =>
            let data :=
              match ac with
              | None => not_found hex_code
              | Some ac =>
                  found hex_code (Adsbdb.type_ ac) (Adsbdb.icao_type ac)
                    (Adsbdb.manufacturer ac) (Adsbdb.mode_s ac)
                    (Adsbdb.registered_owner_country_iso_name ac)
                    (Adsbdb.registered_owner_country_name ac)
                    (Adsbdb.registered_owner ac)
              end in
            let cache := dict_set hex_code data cache in
            match save_mil_cache cache disk_ok file with
            | Some file' => (data, file')
            | None => (failed cache, file)
            end
        end
    end.

(* ===================================================================== *)
(** ** web_server.py: [api_mil]                                           *)
(* ===================================================================== *)

(** An aircraft of the /v2/mil frame, in the fields read. *)
Module Ac.
Record t : Type := mk {
  hex : json;
  flight : json;
  alt_baro : json;
  squawk : json;
  category : json;
  seen : json;
  rssi : json;
  t_ : json;
  type_ : json;
  lat : json;
  rr_lat : json;
  lon : json;
  rr_lon : json
}.
End Ac.

(** The simplified aircraft sent to the browser. *)
Module Mil.
Record t : Type := mk {
  hex : json;
  flight : string;
  alt_baro : json;
  squawk : json;
  category : json;
  seen : json;
  rssi : json;
  t_ : json;
  type_ : json;
  lat : json;
  lon : json
}.
End Mil.

(** [(x or "").strip()]: a truthy value that is not text has no [strip]
    (AttributeError). *)
Definition stripped (x : json) : option string :=
  match or_ x (JStr "") with
  | JStr s => Some (strip s)
  | _ => None
  end.

Definition simplify (ac : Ac.t) : option Mil.t :=
  match stripped (Ac.flight ac) with
  | Some flight =>
      Some (Mil.mk (Ac.hex ac) flight (Ac.alt_baro ac) (Ac.squawk ac)
              (Ac.category ac) (Ac.seen ac) (Ac.rssi ac) (Ac.t_ ac)
              (Ac.type_ ac) (or_ (Ac.lat ac) (Ac.rr_lat ac))
              (or_ (Ac.lon ac) (Ac.rr_lon ac)))
  | None => None
  end.

(** The loop that fills [simplified]; the first exception ends it. *)
Fixpoint simplified (ac_list : list Ac.t) : option (list Mil.t) :=
  match ac_list with
  | [] => Some []
  | ac :: rest =>
      match simplify ac with
      | Some m => option_map (cons m) (simplified rest)
      | None => None
      end
  end.

(** The sort key: [a.get("alt_baro") or 0]. *)
Definition sort_key (a : Mil.t) : json :=
  or_ (Mil.alt_baro a) (JNum (QArith_base.Qmake 0 1)).

(** [list.sort(key=..., reverse=True)]: a stable sort by decreasing key
    that compares with [<]; a comparison that raises ends it. *)
Fixpoint insert_sorted (a : Mil.t) (l : list Mil.t) : option (list Mil.t) :=
  match l with
  | [] => Some [a]
  | b :: rest =>
      match py_lt (sort_key a) (sort_key b) with
      | Some true => option_map (cons b) (insert_sorted a rest)
      | Some false => Some (a :: l)
      | None => None
      end
  end.

Fixpoint sort_reverse (l : list Mil.t) : option (list Mil.t) :=
  match l with
  | [] => Some []
  | a :: rest =>
      match sort_reverse rest with
      | Some sorted => insert_sorted a sorted
      | None => None
      end
  end.

(** What the request to adsb.lol comes to: an exception, or the list
    under [ac] ([data.get("ac", []) or []]). *)
Inductive feed : Type :=
| Unavailable
| Frame (ac_list : list Ac.t).

(** The two answers of the endpoint: the JSON with [count] and
    [aircraft], or the 502 with [mil_fetch_failed] (its [details], the
    text of the exception, are left out). *)
Inductive mil_response : Type :=
| mil_ok (count : Z) (aircraft : list Mil.t)
| mil_fetch_failed.

Definition api_mil (net : feed) : mil_response :=
  match net with
  | Unavailable => mil_fetch_failed
  | Frame ac_list =>
      match simplified ac_list with
      | Some l =>
          match sort_reverse l with
          | Some sorted => mil_ok (Z.of_nat (List.length sorted)) sorted
          | None => mil_fetch_failed
          end
      | None => mil_fetch_failed
      end
  end.

(** The altitude is a text, such as ["ground"]. *)
Definition text_altitude (x : json) : bool :=
  match x with
  | JStr s => negb (is_empty s)
  | _ => false
  end.

(** Two aircraft have equal sort keys: neither is below the other. *)
Definition same_key (a b : Mil.t) : bool :=
  match py_lt (sort_key a) (sort_key b), py_lt (sort_key b) (sort_key a) with
  | Some false, Some false => true
  | _, _ => false
  end.

(** [a] is not below [b]. *)
Definition not_below (a b : Mil.t) : Prop :=
  py_lt (sort_key a) (sort_key b) = Some false.

(** The two kinds of keys. *)
Definition is_text (x : json) : bool :=
  match x with JStr _ => true | _ => false end.

Definition is_number (x : json) : bool :=
  match number x with Some _ => true | None => false end.

(* ===================================================================== *)
(** ** flight.py: the sighting the main loop logs                         *)
(* ===================================================================== *)

(** The aircraft [fetch_nearest] returns, in the fields read; the text
    fields are text or null. *)
Module Nearest.
Record t : Type := mk {
  r : option string;
  flight : option string;
  t_ : option string;
  hex : option string;
  alt_baro : reading;
  gs : reading;
  dst : reading;
  track : reading
}.
End Nearest.

(** [cached_aircraft["response"]["aircraft"]], in the fields read, each
    text or null. *)
Module Aircraft.
Record t : Type := mk {
  type_ : option string;
  icao_type : option string;
  manufacturer : option string;
  registered_owner_country_name : option string;
  registered_owner_country_iso_name : option string;
  registered_owner : option string
}.
End Aircraft.

Module Airline.
Record t : Type := mk {
  name : option string
}.
End Airline.

Module Airport.
Record t : Type := mk {
  iata_code : option string;
  name : option string;
  municipality : option string
}.
End Airport.

(** [cached_route["response"]["flightroute"]]: its [airline], [origin]
    and [destination] objects, [None] when missing or empty, with their
    fields read, each text or null. *)
Module Flightroute.
Record t : Type := mk {
  airline : option Airline.t;
  origin : option Airport.t;
  destination : option Airport.t
}.
End Flightroute.






(** One turn of the loop that found an aircraft: the clock and what was
    fetched. *)
Module Turn.
Record t : Type := mk {
  now : datetime;
  ac : Nearest.t;
  cached_aircraft : option Aircraft.t;
  cached_route : option Flightroute.t
}.
End Turn.







(* ===================================================================== *)
(** ** web_server.py: [get_stats]                                         *)
(* ===================================================================== *)

Section Grouping.

Context {K : Type}.

(** [same] is the equality GROUP BY groups keys with.  SQL does not say
    in which order ORDER BY cnt DESC puts groups of equal counts:
    [tie a b] stands for the engine's choice to put the group of [a]
    after the group of [b]. *)
Variable same : K -> K -> bool.
Variable tie : K -> K -> bool.

(** One more row for the group of [k]. *)
Fixpoint count_in (k : K) (groups : list (K * Z)) : list (K * Z) :=
  match groups with
  | [] => [(k, 1)]
  | (k', n) :: rest =>
      if same k' k then (k', n + 1) :: rest
      else (k', n) :: count_in k rest
  end.

(** SELECT key, COUNT( * ) ... GROUP BY key, over the keys of the rows. *)
Definition GROUP_BY (keys : list K) : list (K * Z) :=
  fold_left (fun groups k => count_in k groups) keys [].

Definition comes_after (g h : K * Z) : bool :=
  (snd g <? snd h) || ((snd g =? snd h) && tie (fst g) (fst h)).

Fixpoint insert_by_cnt (g : K * Z) (l : list (K * Z)) : list (K * Z) :=
  match l with
  | [] => [g]
  | h :: rest =>
      if comes_after g h then h :: insert_by_cnt g rest else g :: l
  end.

(** ORDER BY cnt DESC *)
Definition ORDER_BY_cnt_DESC (groups : list (K * Z)) : list (K * Z) :=
  fold_right insert_by_cnt [] groups.

(** The count of the group of [k], 0 when there is none. *)
Fixpoint cnt_of (k : K) (groups : list (K * Z)) : Z :=
  match groups with
  | [] => 0
  | (k', n) :: rest => if same k' k then n else cnt_of k rest
  end.

(** The number of keys equal to [k]. *)
Definition occurrences (k : K) (keys : list K) : Z :=
  Z.of_nat (List.length (filter (fun k' => same k' k) keys)).

(** The group [b] has no more rows than the group [a]. *)
Definition by_cnt (a b : K * Z) : Prop := snd b <= snd a.

End Grouping.

(** What the queries leave to SQLite: which [seen_at] has today's local
    date ([date(seen_at) = date('now', 'localtime')]), the order of groups
    with equal counts in each of the five rankings, and the row of a group
    that the bare columns of [top_aircraft] are read from (the group is
    given as its first row and the rest). *)
Module Engine.
Record t : Type := mk {
  today : string -> bool;
  tie_airline_today : string -> string -> bool;
  tie_airline : string -> string -> bool;
  tie_type : string -> string -> bool;
  tie_country :
    option string * option string -> option string * option string -> bool;
  tie_aircraft : string -> string -> bool;
  bare : Flight.t -> list Flight.t -> Flight.t
}.
End Engine.

(** A row of [top_countries] and a row of [top_aircraft]. *)
Module Country.
Record t : Type := mk {
  country : option string;
  country_iso : option string;
  cnt : Z
}.
End Country.

Module Seen.
Record t : Type := mk {
  key_id : string;
  reg : option string;
  hex : option string;
  airline_name : option string;
  country : option string;
  country_iso : option string;
  cnt : Z;
  first_seen : option string;
  last_seen : option string
}.
End Seen.

Module Stats.
Record t : Type := mk {
  total_flights : Z;
  flights_today : Z;
  unique_today : Z;
  top_airline_today : option string;
  top_airline_today_count : Z;
  top_airlines : list (string * Z);
  top_types : list (string * Z);
  top_countries : list Country.t;
  top_aircraft : list Seen.t
}.
End Stats.

(** COALESCE(NULLIF(reg,''), hex) *)
Definition key_id (f : Flight.t) : option string :=
  COALESCE (NULLIF (Flight.reg f) "") (Flight.hex f).

(** COALESCE(NULLIF(model,''), type_code) *)
Definition aircraft_type (f : Flight.t) : option string :=
  COALESCE (NULLIF (Flight.model f) "") (Flight.type_code f).

(** (COALESCE(NULLIF(country,''), country_iso), country_iso) *)
Definition country_key (f : Flight.t) : option string * option string :=
  (COALESCE (NULLIF (Flight.country f) "") (Flight.country_iso f),
   Flight.country_iso f).

(** The values of a column that are not NULL. *)
Definition not_null (l : list (option string)) : list string :=
  flat_map (fun x => match x with Some s => [s] | None => [] end) l.

(** [x IS NOT NULL AND x != ''] *)
Definition named (x : option string) : bool := negb (blank x).

(** NULL is the same group as NULL. *)
Definition same_null (a b : option string) : bool :=
  match a, b with
  | Some x, Some y => String.eqb x y
  | None, None => true
  | _, _ => false
  end.

Definition same_country (a b : option string * option string) : bool :=
  same_null (fst a) (fst b) && same_null (snd a) (snd b).

(** SELECT col, COUNT( * ) ... WHERE col IS NOT NULL AND col != ''
    GROUP BY col ORDER BY cnt DESC LIMIT n *)
Definition top (tie : string -> string -> bool)
    (col : Flight.t -> option string) (n : Z) (rows : list Flight.t)
    : list (string * Z) :=
  LIMIT n (ORDER_BY_cnt_DESC tie
             (GROUP_BY String.eqb
                (not_null (filter named (map col rows))))).

(** The rows of the group of [k] in [top_aircraft]. *)
Definition seen_rows (k : string) (db : table) : list Flight.t :=
  filter (fun f => sql_eq (key_id f) k) db.

Definition seen_of (bare : Flight.t -> list Flight.t -> Flight.t)
    (db : table) (g : string * Z) : list Seen.t :=
  match seen_rows (fst g) db with
  | [] => []
  | f :: rest =>
      let b := bare f rest in
      [Seen.mk (fst g) (Flight.reg b) (Flight.hex b) (Flight.airline_name b)
         (Flight.country b) (Flight.country_iso b) (snd g)
         (min_seen_at (f :: rest)) (max_seen_at (f :: rest))]
  end.

Definition get_stats (e : Engine.t) (db : table) : Stats.t :=
  let total_flights := Z.of_nat (List.length db) in
  let rows_today := filter (fun f => Engine.today e (Flight.seen_at f)) db in
  let flights_today := Z.of_nat (List.length rows_today) in
  (* COUNT(DISTINCT ...) counts the values that are not NULL *)
  let unique_today :=
    Z.of_nat (List.length
                (nodup string_dec (not_null (map key_id rows_today)))) in
  let row :=
    top (Engine.tie_airline_today e) Flight.airline_name 1 rows_today in
  let top_airline_today :=
    match row with g :: _ => Some (fst g) | [] => None end in
  let top_airline_today_count :=
    match row with g :: _ => snd g | [] => 0 end in
  let top_airlines := top (Engine.tie_airline e) Flight.airline_name 10 db in
  let top_types := top (Engine.tie_type e) aircraft_type 10 db in
  let top_countries :=
    map (fun g => Country.mk (fst (fst g)) (snd (fst g)) (snd g))
      (LIMIT 10 (ORDER_BY_cnt_DESC (Engine.tie_country e)
                   (GROUP_BY same_country (map country_key db)))) in
  let top_aircraft :=
    flat_map (seen_of (Engine.bare e) db)
      (LIMIT 10 (ORDER_BY_cnt_DESC (Engine.tie_aircraft e)
                   (GROUP_BY String.eqb (not_null (map key_id db))))) in
  Stats.mk total_flights flights_today unique_today top_airline_today
    top_airline_today_count top_airlines top_types top_countries
    top_aircraft.

(** The number of rows whose column [col] is the text [v]. *)
Definition rows_with (col : Flight.t -> option string) (v : string)
    (rows : list Flight.t) : Z :=
  Z.of_nat (List.length (filter (fun f => sql_eq (col f) v) rows)).

(** [l] ranks the texts of column [col] by their numbers of rows: at most
    [n] entries, each a text that is not empty with its number of rows,
    no text twice, the numbers never increasing, no text left out that
    has more rows than one that is listed, and none left out at all when
    there is room. *)
Definition ranking (col : Flight.t -> option string) (n : nat)
    (rows : list Flight.t) (l : list (string * Z)) : Prop :=
  (List.length l <= n)%nat
  /\ NoDup (map fst l)
  /\ (forall v c, In (v, c) l -> v <> "" /\ c = rows_with col v rows /\ 1 <= c)
  /\ StronglySorted (fun a b => snd b <= snd a) l
  /\ (forall v c w, In (v, c) l -> ~ In w (map fst l) -> w <> "" ->
        rows_with col w rows <= c)
  /\ ((List.length l < n)%nat ->
      forall w, w <> "" -> 0 < rows_with col w rows -> In w (map fst l)).

(* ===================================================================== *)
(** ** Sample sightings                                                   *)
(* ===================================================================== *)

(** A sighting of hex A1B2 flying as UAL123. *)
Definition ual123 (seen_at : option string) (altitude_ft : reading)
    (owner type_code : option string) : Row.t :=
  Row.mk seen_at (Some "A1B2") None (Some "UAL123") type_code None None None
    None owner None None None None None altitude_ft None None None.

(** A sighting with no hex, registration or callsign, and no [seen_at]. *)
Definition nobody : Row.t :=
  Row.mk None None None None None None None None None None None None None
    None None None None None None.

Definition noon : string := "2024-01-01T12:00:00".

Definition at_1000 : call :=
  (noon, ual123 (Some "2024-01-01T10:00:00") (Some 30000) None None).
Definition at_1005 : call :=
  (noon, ual123 (Some "2024-01-01T10:05:00") (Some 31000) (Some "United")
           (Some "B738")).
Definition at_0955 : call :=
  (noon, ual123 (Some "2024-01-01T09:55:00") None (Some "") None).
Definition at_1030 : call :=
  (noon, ual123 (Some "2024-01-01T10:30:00") (Some 9000) None None).

(** A sighting of hex C3D4, with no registration and no callsign. *)
Definition c3d4 (seen_at : string) : call :=
  (noon, Row.mk (Some seen_at) (Some "C3D4") None None None None None None
           None None None None None None None None None None None).

(** The columns the scenarios look at. *)
Definition summary (f : Flight.t) : Z * string * string * string * Z :=
  (Flight.id f, Flight.event_key f, Flight.first_seen f, Flight.last_seen f,
   Flight.times_seen f).

(** The event [at_1000] opens. *)
Definition first_event : Flight.t :=
  new_event 1 "2024-01-01T10:00:00" (snd at_1000) "A1B2||UAL123".

(** The time a timestamp denotes ([0] for other texts). *)
Definition time_of (s : string) : Z :=
  match timestamp s with Some t => t | None => 0 end.

(** The event of [at_1000] after [at_1005] has coalesced into it. *)
Definition first_event_again : Flight.t :=
  update_event "2024-01-01T10:05:00" (snd at_1005) first_event.

(** [mil_cache.json] with one aircraft that ADSBdb does not know. *)
Definition one_unknown : cache_file :=
  Holding [("AE01CE", not_found "AE01CE")].

(** An answer of ADSBdb. *)
Definition hercules : Adsbdb.t :=
  Adsbdb.mk (JStr "C-130J") (JStr "C30J") (JStr "Lockheed") (JStr "AE1234")
    (JStr "US") (JStr "United States") (JStr "United States Air Force").

(** An aircraft of the /v2/mil frame with callsign [flight] and altitude
    [alt_baro]. *)
Definition mil_ac (hex flight : string) (alt_baro : json) : Ac.t :=
  Ac.mk (JStr hex) (JStr flight) alt_baro JNull JNull JNull JNull JNull
    JNull JNull JNull JNull JNull.

Definition simple (hex flight : string) (alt_baro : json) : Mil.t :=
  Mil.mk (JStr hex) flight alt_baro JNull JNull JNull JNull JNull JNull
    JNull JNull.

Definition feet (n : Z) : json := JNum (QArith_base.Qmake n 1).

(** A frame with two aircraft at the same altitude, one without an
    altitude and one higher up. *)
Definition frame : list Ac.t :=
  [mil_ac "AE01CE" "RCH101  " (feet 12000); mil_ac "AE1234" "" JNull;
   mil_ac "AE5678" " DUKE21" (feet 35000); mil_ac "43C6F1" "RRR7" (feet 12000)].

Definition frame_sorted : list Mil.t :=
  [simple "AE5678" "DUKE21" (feet 35000); simple "AE01CE" "RCH101" (feet 12000);
   simple "43C6F1" "RRR7" (feet 12000); simple "AE1234" "" JNull].



(* ===================================================================== *)
(** * Properties                                                          *)
(* ===================================================================== *)

Ltac zlia := Z.to_euclidean_division_equations; lia.

(** Turn boolean tests on [Z] in the context into propositions. *)
Ltac zbool :=
  repeat match goal with
  | H : (_ && _)%bool = true |- _ => apply andb_true_iff in H; destruct H
  | H : (_ <=? _) = true |- _ => apply Z.leb_le in H
  | H : (_ <=? _) = false |- _ => apply Z.leb_gt in H
  | H : (_ <? _) = true |- _ => apply Z.ltb_lt in H
  | H : (_ <? _) = false |- _ => apply Z.ltb_ge in H
  | H : (_ =? _) = true |- _ => apply Z.eqb_eq in H
  | H : (_ =? _) = false |- _ => apply Z.eqb_neq in H
  end.


Lemma code_chr n : 0 <= n < 256 -> code (chr n) = n.
Proof.
  intros H. unfold code, chr. rewrite N_ascii_embedding; lia.
Qed.

Lemma chr_code c : chr (code c) = c.
Proof.
  unfold code, chr. rewrite N2Z.id. apply ascii_N_embedding.
Qed.

Lemma digit_val_char d : 0 <= d <= 9 -> digit_val (digit_char d) = Some d.
Proof.
  intros H. unfold digit_val, digit_char. rewrite code_chr by lia.
  replace (48 <=? 48 + d) with true by (symmetry; apply Z.leb_le; lia).
  replace (48 + d <=? 57) with true by (symmetry; apply Z.leb_le; lia).
  cbn [andb]. f_equal. lia.
Qed.

Lemma digit_val_inv c d :
  digit_val c = Some d -> c = digit_char d /\ 0 <= d <= 9.
Proof.
  unfold digit_val, digit_char.
  destruct ((48 <=? code c) && (code c <=? 57)) eqn:E; [|discriminate].
  intros H. assert (d = code c - 48) as -> by congruence. clear H.
  zbool. split; [|lia].
  replace (48 + (code c - 48)) with (code c) by lia.
  symmetry. apply chr_code.
Qed.

Lemma number2_pad2 n :
  0 <= n <= 99 -> number2 (digit_char (n / 10)) (digit_char (n mod 10)) = Some n.
Proof.
  intros H. unfold number2.
  rewrite !digit_val_char by zlia. f_equal. zlia.
Qed.

Lemma number2_inv a b n rest :
  number2 a b = Some n ->
  pad2 n rest = String a (String b rest) /\ 0 <= n <= 99.
Proof.
  unfold number2, pad2.
  destruct (digit_val a) as [x|] eqn:Ea; [|discriminate].
  destruct (digit_val b) as [y|] eqn:Eb; [|discriminate].
  intros H. assert (n = 10 * x + y) as -> by congruence. clear H.
  apply digit_val_inv in Ea as [-> Hx]. apply digit_val_inv in Eb as [-> Hy].
  replace ((10 * x + y) / 10) with x by zlia.
  replace ((10 * x + y) mod 10) with y by zlia.
  split; [reflexivity | lia].
Qed.

Lemma number4_pad4 n :
  0 <= n <= 9999 ->
  number4 (digit_char (n / 100 / 10)) (digit_char ((n / 100) mod 10))
          (digit_char (n mod 100 / 10)) (digit_char ((n mod 100) mod 10))
  = Some n.
Proof.
  intros H. unfold number4.
  rewrite !number2_pad2 by zlia. f_equal. zlia.
Qed.

Lemma number4_inv a b c d n rest :
  number4 a b c d = Some n ->
  pad4 n rest = String a (String b (String c (String d rest)))
  /\ 0 <= n <= 9999.
Proof.
  unfold number4, pad4.
  destruct (number2 a b) as [x|] eqn:Ex; [|discriminate].
  destruct (number2 c d) as [y|] eqn:Ey; [|discriminate].
  intros H. assert (n = 100 * x + y) as -> by congruence. clear H.
  apply (number2_inv _ _ _ (String c (String d rest))) in Ex as [Ex Hx].
  apply (number2_inv _ _ _ rest) in Ey as [Ey Hy].
  replace ((100 * x + y) / 100) with x by zlia.
  replace ((100 * x + y) mod 100) with y by zlia.
  rewrite Ey, Ex. split; [reflexivity | lia].
Qed.

Lemma fromisoformat_inv s dt :
  fromisoformat s = Some dt -> isoformat dt = s /\ dt_valid dt = true.
Proof.
  unfold fromisoformat. intros H.
  rewrite <- (string_of_list_ascii_of_string s).
  destruct (list_ascii_of_string s) as [|y1 l]; [discriminate|].
  do 18 (destruct l as [|? l]; [discriminate|]).
  destruct l; [|discriminate].
  destruct (number4 _ _ _ _) as [y|] eqn:Ey; [|discriminate].
  destruct (number2 _ _) as [m|] eqn:Em in H; [|discriminate].
  destruct (number2 _ _) as [d|] eqn:Ed in H; [|discriminate].
  destruct (number2 _ _) as [hh|] eqn:Eh in H; [|discriminate].
  destruct (number2 _ _) as [mm|] eqn:En in H; [|discriminate].
  destruct (number2 _ _) as [ss|] eqn:Es in H; [|discriminate].
  match type of H with (if ?c then _ else _) = _ => destruct c eqn:E end;
    [|discriminate].
  injection H as <-.
  repeat (apply andb_true_iff in E; destruct E as [E ?]).
  repeat match goal with
         | H : Ascii.eqb _ _ = true |- _ => apply Ascii.eqb_eq in H; subst
         end.
  split; [|assumption].
  unfold isoformat; cbn [year month day hour minute second].
  rewrite (proj1 (number2_inv _ _ _ _ Es)).
  rewrite (proj1 (number2_inv _ _ _ _ En)).
  rewrite (proj1 (number2_inv _ _ _ _ Eh)).
  rewrite (proj1 (number2_inv _ _ _ _ Ed)).
  rewrite (proj1 (number2_inv _ _ _ _ Em)).
  rewrite (proj1 (number4_inv _ _ _ _ _ _ Ey)).
  reflexivity.
Qed.

Lemma dt_valid_ranges dt :
  dt_valid dt = true ->
  1 <= year dt <= 9999 /\ 1 <= month dt <= 12
  /\ 1 <= day dt <= days_in_month (year dt) (month dt)
  /\ 0 <= hour dt <= 23 /\ 0 <= minute dt <= 59 /\ 0 <= second dt <= 59.
Proof.
  unfold dt_valid. intros H. zbool. lia.
Qed.

Lemma days_in_month_le y m : days_in_month y m <= 31.
Proof.
  unfold days_in_month.
  destruct m as [|p|p]; try lia.
  do 4 (try destruct p as [p|p|]); try lia; destruct (is_leap y); lia.
Qed.

Lemma fromisoformat_isoformat dt :
  dt_valid dt = true -> fromisoformat (isoformat dt) = Some dt.
Proof.
  intros Hv. pose proof (dt_valid_ranges dt Hv) as (Hy & Hm & Hd & Hh & Hn & Hs).
  pose proof (days_in_month_le (year dt) (month dt)).
  unfold fromisoformat, isoformat, pad4, pad2.
  cbn [list_ascii_of_string].
  rewrite number4_pad4 by lia.
  rewrite !number2_pad2 by lia.
  cbn [Ascii.eqb Bool.eqb andb]. destruct dt; cbn in *. rewrite Hv. reflexivity.
Qed.

(** *** The calendar: [seconds] is strictly monotone in the fields *)

Lemma days_before_year_succ y :
  days_before_year (y + 1)
  = days_before_year y + 365 + (if is_leap y then 1 else 0).
Proof.
  unfold days_before_year, is_leap.
  destruct (y mod 4 =? 0) eqn:E4; destruct (y mod 100 =? 0) eqn:E100;
    destruct (y mod 400 =? 0) eqn:E400; cbn [andb orb negb]; zbool; zlia.
Qed.

Lemma days_before_year_mono a b :
  a <= b -> days_before_year a <= days_before_year b.
Proof. unfold days_before_year. intros H. zlia. Qed.

Ltac month_cases m :=
  let H := fresh in
  assert (H : m = 1 \/ m = 2 \/ m = 3 \/ m = 4 \/ m = 5 \/ m = 6 \/ m = 7
              \/ m = 8 \/ m = 9 \/ m = 10 \/ m = 11 \/ m = 12) by lia;
  repeat destruct H as [H | H]; subst m.

Lemma days_before_month_next y m :
  1 <= m <= 11 ->
  days_before_month y (m + 1) = days_before_month y m + days_in_month y m.
Proof.
  intros H. month_cases m; try lia; unfold days_before_month, days_in_month;
    destruct (is_leap y); reflexivity.
Qed.

Lemma days_before_month_mono y m1 m2 :
  1 <= m1 -> m1 < m2 -> m2 <= 12 ->
  days_before_month y m1 + days_in_month y m1 <= days_before_month y m2.
Proof.
  intros H1 H H2. month_cases m1; month_cases m2; try lia;
    unfold days_before_month, days_in_month; destruct (is_leap y);
    cbn; lia.
Qed.

Lemma days_before_month_end y :
  days_before_month y 12 + 31 = 365 + (if is_leap y then 1 else 0).
Proof. unfold days_before_month. destruct (is_leap y); reflexivity. Qed.

Lemma days_before_month_nonneg y m : 0 <= days_before_month y m.
Proof.
  unfold days_before_month.
  destruct ((2 <? m) && is_leap y);
  destruct m as [|p|p]; try lia;
  do 4 (try destruct p as [p|p|]); lia.
Qed.

(** A date of year [y] lies in year [y]. *)
Lemma toordinal_in_year dt :
  dt_valid dt = true ->
  days_before_year (year dt) < toordinal dt <= days_before_year (year dt + 1).
Proof.
  intros Hv. apply dt_valid_ranges in Hv as (Hy & Hm & Hd & _).
  unfold toordinal. rewrite days_before_year_succ.
  pose proof (days_before_month_nonneg (year dt) (month dt)).
  split; [lia|].
  pose proof (days_before_month_end (year dt)).
  destruct (Z.eq_dec (month dt) 12) as [E | E].
  - rewrite E in *. cbn [days_in_month] in Hd. lia.
  - pose proof (days_before_month_mono (year dt) (month dt) 12). lia.
Qed.

Lemma seconds_split dt : seconds dt = toordinal dt * 86400 + time_of_day dt.
Proof. unfold seconds, time_of_day. lia. Qed.

Lemma time_of_day_range dt :
  dt_valid dt = true -> 0 <= time_of_day dt < 86400.
Proof.
  intros Hv. apply dt_valid_ranges in Hv. unfold time_of_day. lia.
Qed.

Lemma compare_fields_seconds a b :
  dt_valid a = true -> dt_valid b = true ->
  compare_fields a b = (seconds a ?= seconds b).
Proof.
  intros Ha Hb.
  pose proof (toordinal_in_year a Ha) as Ia.
  pose proof (toordinal_in_year b Hb) as Ib.
  pose proof (time_of_day_range a Ha) as Ta.
  pose proof (time_of_day_range b Hb) as Tb.
  pose proof (dt_valid_ranges a Ha) as (Hya & Hma & Hda & Hha & Hna & Hsa).
  pose proof (dt_valid_ranges b Hb) as (Hyb & Hmb & Hdb & Hhb & Hnb & Hsb).
  rewrite !seconds_split. unfold compare_fields, then_.
  destruct (Z.compare_spec (year a) (year b)) as [Ey | Ly | Ly].
  2:{ symmetry. apply Z.compare_lt_iff.
      pose proof (days_before_year_mono (year a + 1) (year b)). lia. }
  2:{ symmetry. apply Z.compare_gt_iff.
      pose proof (days_before_year_mono (year b + 1) (year a)). lia. }
  unfold toordinal in *. rewrite Ey in *.
  destruct (Z.compare_spec (month a) (month b)) as [Em | Lm | Lm].
  2:{ symmetry. apply Z.compare_lt_iff.
      pose proof (days_before_month_mono (year b) (month a) (month b)). lia. }
  2:{ symmetry. apply Z.compare_gt_iff.
      pose proof (days_before_month_mono (year b) (month b) (month a)). lia. }
  rewrite Em in *.
  destruct (Z.compare_spec (day a) (day b)) as [Ed | Ld | Ld].
  2:{ symmetry. apply Z.compare_lt_iff. lia. }
  2:{ symmetry. apply Z.compare_gt_iff. lia. }
  rewrite Ed in *. unfold time_of_day in *.
  destruct (Z.compare_spec (hour a) (hour b)) as [Eh | Lh | Lh].
  2:{ symmetry. apply Z.compare_lt_iff. lia. }
  2:{ symmetry. apply Z.compare_gt_iff. lia. }
  rewrite Eh in *.
  destruct (Z.compare_spec (minute a) (minute b)) as [En | Ln | Ln].
  2:{ symmetry. apply Z.compare_lt_iff. lia. }
  2:{ symmetry. apply Z.compare_gt_iff. lia. }
  rewrite En in *.
  destruct (Z.compare_spec (second a) (second b)) as [Es | Ls | Ls];
    symmetry; [apply Z.compare_eq_iff | apply Z.compare_lt_iff
              | apply Z.compare_gt_iff]; lia.
Qed.

(** *** Text order of two timestamps *)

Lemma compare_digit_char x y :
  0 <= x <= 9 -> 0 <= y <= 9 ->
  Ascii.compare (digit_char x) (digit_char y) = (x ?= y).
Proof.
  intros Hx Hy. unfold Ascii.compare.
  rewrite <- N2Z.inj_compare. fold (code (digit_char x)) (code (digit_char y)).
  unfold digit_char. rewrite !code_chr by lia.
  apply Z.add_compare_mono_l.
Qed.

Lemma compare_two_digits a b c d :
  0 <= a <= 9 -> 0 <= b <= 9 -> 0 <= c <= 9 -> 0 <= d <= 9 ->
  then_ (a ?= c) (b ?= d) = (10 * a + b ?= 10 * c + d).
Proof.
  intros. unfold then_.
  destruct (Z.compare_spec a c); destruct (Z.compare_spec b d); symmetry;
    first [apply Z.compare_eq_iff; lia | apply Z.compare_lt_iff; lia
          | apply Z.compare_gt_iff; lia].
Qed.

Lemma compare_pad2 x y r1 r2 :
  0 <= x <= 99 -> 0 <= y <= 99 ->
  String.compare (pad2 x r1) (pad2 y r2)
  = then_ (x ?= y) (String.compare r1 r2).
Proof.
  intros Hx Hy. unfold pad2. cbn [String.compare].
  rewrite !compare_digit_char by zlia.
  replace (x ?= y) with (10 * (x / 10) + x mod 10 ?= 10 * (y / 10) + y mod 10)
    by (f_equal; zlia).
  rewrite <- compare_two_digits by zlia.
  unfold then_.
  destruct (x / 10 ?= y / 10); try reflexivity.
  destruct (x mod 10 ?= y mod 10); reflexivity.
Qed.

Lemma compare_pad4 x y r1 r2 :
  0 <= x <= 9999 -> 0 <= y <= 9999 ->
  String.compare (pad4 x r1) (pad4 y r2)
  = then_ (x ?= y) (String.compare r1 r2).
Proof.
  intros Hx Hy. unfold pad4.
  rewrite compare_pad2 by zlia. rewrite compare_pad2 by zlia.
  assert (E : (x ?= y)
              = then_ (x / 100 ?= y / 100) (x mod 100 ?= y mod 100)).
  { unfold then_.
    destruct (Z.compare_spec (x / 100) (y / 100));
      destruct (Z.compare_spec (x mod 100) (y mod 100));
      first [apply Z.compare_eq_iff; zlia | apply Z.compare_lt_iff; zlia
            | apply Z.compare_gt_iff; zlia]. }
  rewrite E. unfold then_. destruct (x / 100 ?= y / 100); reflexivity.
Qed.

Lemma compare_isoformat a b :
  dt_valid a = true -> dt_valid b = true ->
  String.compare (isoformat a) (isoformat b) = (seconds a ?= seconds b).
Proof.
  intros Ha Hb. rewrite <- compare_fields_seconds by assumption.
  pose proof (dt_valid_ranges a Ha) as (Hya & Hma & Hda & Hha & Hna & Hsa).
  pose proof (dt_valid_ranges b Hb) as (Hyb & Hmb & Hdb & Hhb & Hnb & Hsb).
  pose proof (days_in_month_le (year a) (month a)).
  pose proof (days_in_month_le (year b) (month b)).
  unfold isoformat, compare_fields.
  rewrite compare_pad4 by lia. f_equal.
  cbn [String.compare Ascii.compare N_of_ascii N.compare].
  rewrite compare_pad2 by lia. f_equal. cbn [String.compare].
  rewrite compare_pad2 by lia. f_equal. cbn [String.compare].
  rewrite compare_pad2 by lia. f_equal. cbn [String.compare].
  rewrite compare_pad2 by lia. f_equal. cbn [String.compare].
  rewrite compare_pad2 by lia. cbn [String.compare].
  unfold then_. destruct (second a ?= second b); reflexivity.
Qed.

(** *** Subtracting the window *)

Lemma dt_valid_intro y m d hh mm ss :
  1 <= y <= 9999 -> 1 <= m <= 12 -> 1 <= d <= days_in_month y m ->
  0 <= hh <= 23 -> 0 <= mm <= 59 -> 0 <= ss <= 59 ->
  dt_valid (mkdt y m d hh mm ss) = true.
Proof.
  intros. unfold dt_valid. cbn [year month day hour minute second].
  repeat (apply andb_true_iff; split); apply Z.leb_le; lia.
Qed.

Lemma days_in_month_pos y m : 1 <= m <= 12 -> 28 <= days_in_month y m.
Proof.
  intros H. month_cases m; unfold days_in_month; destruct (is_leap y); lia.
Qed.

Lemma prev_day_spec y m d :
  1 <= y <= 9999 -> 1 <= m <= 12 -> 1 <= d <= days_in_month y m ->
  match prev_day y m d with
  | Some (y', m', d') =>
      1 <= y' <= 9999 /\ 1 <= m' <= 12 /\ 1 <= d' <= days_in_month y' m'
      /\ days_before_year y' + days_before_month y' m' + d'
         = days_before_year y + days_before_month y m + d - 1
  | None => days_before_year y + days_before_month y m + d = 1
  end.
Proof.
  intros Hy Hm Hd. unfold prev_day.
  destruct (1 <? d) eqn:Ed; zbool.
  { repeat split; lia. }
  destruct (1 <? m) eqn:Em; zbool.
  { pose proof (days_in_month_pos y (m - 1)).
    pose proof (days_before_month_next y (m - 1)).
    replace (m - 1 + 1) with m in * by lia.
    repeat split; lia. }
  assert (m = 1) as -> by lia. assert (d = 1) as -> by lia.
  destruct (1 <? y) eqn:Ey; zbool.
  - pose proof (days_before_year_succ (y - 1)) as S.
    replace (y - 1 + 1) with y in S by lia.
    pose proof (days_before_month_end (y - 1)).
    change (days_in_month (y - 1) 12) with 31.
    change (days_before_month y 1) with 0.
    repeat split; lia.
  - assert (y = 1) as -> by lia. reflexivity.
Qed.

Lemma minus_minutes_spec dt n :
  dt_valid dt = true -> 0 <= n <= 1440 ->
  match minus_minutes dt n with
  | Some r => dt_valid r = true /\ seconds r = seconds dt - 60 * n
  | None => seconds dt - 60 * n < 86400
  end.
Proof.
  intros Hv Hn.
  pose proof (dt_valid_ranges dt Hv) as (Hy & Hm & Hd & Hh & Hmi & Hs).
  unfold minus_minutes.
  destruct (0 <=? hour dt * 60 + minute dt - n) eqn:E; zbool.
  - split.
    + apply dt_valid_intro; try assumption; zlia.
    + unfold seconds, toordinal. cbn [year month day hour minute second]. zlia.
  - pose proof (prev_day_spec _ _ _ Hy Hm Hd) as P.
    destruct (prev_day (year dt) (month dt) (day dt)) as [[[y' m'] d']|].
    + destruct P as (Hy' & Hm' & Hd' & Hord). split.
      * apply dt_valid_intro; try assumption; zlia.
      * unfold seconds, toordinal. cbn [year month day hour minute second].
        rewrite Hord. zlia.
    + unfold seconds, toordinal. rewrite P. lia.
Qed.

(** *** The window test of the SELECT *)

Lemma timestamp_inv s t :
  timestamp s = Some t ->
  exists dt, fromisoformat s = Some dt /\ dt_valid dt = true
             /\ isoformat dt = s /\ seconds dt = t.
Proof.
  unfold timestamp. destruct (fromisoformat s) as [dt|] eqn:E; [|discriminate].
  cbn. intros H. exists dt. apply fromisoformat_inv in E as [E1 E2].
  repeat split; congruence.
Qed.

Lemma compare_timestamps a b ta tb :
  timestamp a = Some ta -> timestamp b = Some tb ->
  String.compare a b = (ta ?= tb).
Proof.
  intros Ha Hb.
  apply timestamp_inv in Ha as (da & _ & Va & <- & <-).
  apply timestamp_inv in Hb as (db & _ & Vb & <- & <-).
  now apply compare_isoformat.
Qed.

Lemma sql_ge_timestamps a b ta tb :
  timestamp a = Some ta -> timestamp b = Some tb ->
  sql_ge a b = (tb <=? ta).
Proof.
  intros Ha Hb. unfold sql_ge. rewrite (compare_timestamps _ _ _ _ Ha Hb).
  destruct (Z.compare_spec ta tb); symmetry;
    [apply Z.leb_le | apply Z.leb_gt | apply Z.leb_le]; lia.
Qed.

Lemma sql_lt_timestamps a b ta tb :
  timestamp a = Some ta -> timestamp b = Some tb ->
  sql_lt a b = (ta <? tb).
Proof.
  intros Ha Hb. unfold sql_lt. rewrite (compare_timestamps _ _ _ _ Ha Hb).
  destruct (Z.compare_spec ta tb); symmetry;
    [apply Z.ltb_ge | apply Z.ltb_lt | apply Z.ltb_ge]; lia.
Qed.

Lemma timestamp_isoformat dt :
  dt_valid dt = true -> timestamp (isoformat dt) = Some (seconds dt).
Proof.
  intros H. unfold timestamp. now rewrite fromisoformat_isoformat.
Qed.

(** The cutoff of a sighting seen at [seen_dt] is the timestamp 20 minutes
    before it. *)
Lemma cutoff_timestamp seen_dt cutoff_dt :
  dt_valid seen_dt = true ->
  minus_minutes seen_dt EVENT_WINDOW_MINUTES = Some cutoff_dt ->
  timestamp (isoformat cutoff_dt) = Some (seconds seen_dt - 1200).
Proof.
  intros Hv Hc.
  pose proof (minus_minutes_spec seen_dt EVENT_WINDOW_MINUTES Hv) as S.
  rewrite Hc in S. destruct S as [V E]; [unfold EVENT_WINDOW_MINUTES; lia|].
  rewrite timestamp_isoformat by assumption. f_equal.
  rewrite E. unfold EVENT_WINDOW_MINUTES. lia.
Qed.

(** *** Text order is a total order *)

Lemma compare_lt_trans a b c :
  String.compare a b = Lt -> String.compare b c = Lt -> String.compare a c = Lt.
Proof.
  intros H1 H2.
  apply OrderedTypeEx.String_as_OT.cmp_lt in H1, H2.
  apply OrderedTypeEx.String_as_OT.cmp_lt.
  eapply OrderedTypeEx.String_as_OT.lt_trans; eassumption.
Qed.

Lemma compare_refl a : String.compare a a = Eq.
Proof. now apply OrderedTypeEx.String_as_OT.cmp_eq. Qed.

Lemma sql_ge_negb a b : sql_ge a b = negb (sql_lt a b).
Proof. unfold sql_ge, sql_lt. destruct (String.compare a b); reflexivity. Qed.

Lemma sql_lt_irrefl a : sql_lt a a = false.
Proof. unfold sql_lt. now rewrite compare_refl. Qed.

Lemma sql_lt_trans a b c :
  sql_lt a b = true -> sql_lt b c = true -> sql_lt a c = true.
Proof.
  unfold sql_lt. intros H1 H2.
  destruct (String.compare a b) eqn:E1; try discriminate.
  destruct (String.compare b c) eqn:E2; try discriminate.
  now rewrite (compare_lt_trans _ _ _ E1 E2).
Qed.

Lemma sql_lt_asym a b : sql_lt a b = true -> sql_lt b a = false.
Proof.
  unfold sql_lt. rewrite (String.compare_antisym b a).
  destruct (String.compare a b); cbn; congruence.
Qed.

(** [b <= a] and [c <= b] give [c <= a]. *)
Lemma sql_not_lt_trans a b c :
  sql_lt a b = false -> sql_lt b c = false -> sql_lt a c = false.
Proof.
  intros H1 H2. destruct (sql_lt a c) eqn:E; [|reflexivity].
  unfold sql_lt in *.
  destruct (String.compare a c) eqn:Eac; try discriminate.
  destruct (String.compare b c) eqn:Ebc; try discriminate.
  - apply String.compare_eq_iff in Ebc. subst. now rewrite Eac in H1.
  - rewrite String.compare_antisym in Ebc.
    destruct (String.compare c b) eqn:Ecb; try discriminate.
    now rewrite (compare_lt_trans _ _ _ Eac Ecb) in H1.
Qed.

(** *** The function in one piece *)

Lemma build_event_key_set_seen_at v row :
  _build_event_key (Row.set_seen_at v row) = _build_event_key row.
Proof. reflexivity. Qed.

(** [log_flight] written over the timestamp it works with. *)
Lemma log_flight_eq now row db :
  log_flight now row db =
  let seen_at := observed_at now row in
  let event_key := _build_event_key row in
  if degenerate event_key
  then Done (db ++ [new_event (next_id db) seen_at row event_key])
  else
    match fromisoformat seen_at with
    | None => Raised ValueError
    | Some seen_dt =>
        match minus_minutes seen_dt EVENT_WINDOW_MINUTES with
        | None => Raised OverflowError
        | Some cutoff_dt =>
            match select_recent event_key (isoformat cutoff_dt) db with
            | Some m => Done (update_where_id (Flight.id m) seen_at row db)
            | None =>
                Done (db ++ [new_event (next_id db) seen_at row event_key])
            end
        end
    end.
Proof.
  unfold log_flight, observed_at, init_db, _insert_new_event.
  destruct row as [sa hx rg cs tc mo ma co ci ow an oi on di dn al gs ds hd].
  destruct sa as [[|c s]|]; destruct now; reflexivity.
Qed.

(** *** ORDER BY last_seen DESC LIMIT 1 *)

Lemma freshest_spec l :
  match freshest l with
  | Some m =>
      In m l /\
      forall f, In f l -> sql_lt (Flight.last_seen m) (Flight.last_seen f) = false
  | None => l = []
  end.
Proof.
  induction l as [|f rest IH]; cbn [freshest]; [reflexivity|].
  destruct (freshest rest) as [g|].
  - destruct IH as [Hin Hmax].
    destruct (sql_lt (Flight.last_seen f) (Flight.last_seen g)) eqn:E.
    + split; [now right|]. intros h [<- | Hh].
      * now apply sql_lt_asym.
      * now apply Hmax.
    + split; [now left|]. intros h [<- | Hh].
      * apply sql_lt_irrefl.
      * eapply sql_not_lt_trans; [exact E | now apply Hmax].
  - subst rest. split; [now left|]. intros h [<- | []]. apply sql_lt_irrefl.
Qed.

Lemma select_recent_some key cutoff db m :
  select_recent key cutoff db = Some m ->
  In m db /\ Flight.event_key m = key
  /\ sql_ge (Flight.last_seen m) cutoff = true
  /\ forall f, In f db -> Flight.event_key f = key ->
       sql_lt (Flight.last_seen m) (Flight.last_seen f) = false.
Proof.
  unfold select_recent. intros H.
  pose proof (freshest_spec (filter (in_window key cutoff) db)) as S.
  rewrite H in S. destruct S as [Hin Hmax].
  apply filter_In in Hin as [Hin Hw]. unfold in_window in Hw.
  apply andb_true_iff in Hw as [Hk Hg]. apply String.eqb_eq in Hk.
  repeat split; try assumption.
  intros f Hf Hkf.
  destruct (sql_ge (Flight.last_seen f) cutoff) eqn:Ef.
  - apply Hmax. apply filter_In. split; [assumption|].
    unfold in_window. rewrite Ef, Hkf, String.eqb_refl. reflexivity.
  - rewrite sql_ge_negb in Ef, Hg.
    apply negb_false_iff in Ef. apply negb_true_iff in Hg.
    destruct (sql_lt (Flight.last_seen m) (Flight.last_seen f)) eqn:E;
      [|reflexivity].
    rewrite (sql_lt_trans _ _ _ E Ef) in Hg. discriminate.
Qed.

Lemma select_recent_none key cutoff db :
  select_recent key cutoff db = None ->
  forall f, In f db -> Flight.event_key f = key ->
    sql_ge (Flight.last_seen f) cutoff = false.
Proof.
  unfold select_recent. intros H f Hf Hk.
  pose proof (freshest_spec (filter (in_window key cutoff) db)) as S.
  rewrite H in S.
  destruct (sql_ge (Flight.last_seen f) cutoff) eqn:E; [|reflexivity].
  assert (In f (filter (in_window key cutoff) db)) as Hin.
  { apply filter_In. split; [assumption|].
    unfold in_window. rewrite E, Hk, String.eqb_refl. reflexivity. }
  rewrite S in Hin. destruct Hin.
Qed.

(** *** UPDATE ... WHERE id = ? on a table with a primary key *)

Lemma update_where_id_absent i seen_at row db :
  ~ In i (ids db) -> update_where_id i seen_at row db = db.
Proof.
  unfold update_where_id, ids. induction db as [|f db IH]; cbn; [reflexivity|].
  intros H. destruct (Z.eqb_spec (Flight.id f) i) as [E | E].
  - exfalso. apply H. now left.
  - f_equal. apply IH. intros Hin. apply H. now right.
Qed.

Lemma update_where_id_split seen_at row pre m post :
  NoDup (ids (pre ++ m :: post)) ->
  update_where_id (Flight.id m) seen_at row (pre ++ m :: post)
  = pre ++ update_event seen_at row m :: post.
Proof.
  intros H. unfold ids in H. rewrite map_app in H. cbn [map] in H.
  pose proof (NoDup_remove_2 _ _ _ H) as Hnot.
  unfold update_where_id. rewrite map_app. cbn [map]. rewrite Z.eqb_refl.
  fold (update_where_id (Flight.id m) seen_at row pre).
  fold (update_where_id (Flight.id m) seen_at row post).
  rewrite !update_where_id_absent; [reflexivity | |];
    intros Hin; apply Hnot; apply in_or_app; [right | left]; exact Hin.
Qed.

Lemma ids_update_where_id i seen_at row db :
  ids (update_where_id i seen_at row db) = ids db.
Proof.
  unfold ids, update_where_id. rewrite map_map. apply map_ext.
  intros f. destruct (Flight.id f =? i); reflexivity.
Qed.

(** *** AUTOINCREMENT gives a fresh key *)

Lemma next_id_above db : forall i, In i (ids db) -> i < next_id db.
Proof.
  unfold next_id. induction (ids db) as [|j l IH]; cbn [fold_right];
    [intros i []|].
  intros i [<- | H]; [lia|]. specialize (IH i H). lia.
Qed.

Lemma next_id_fresh db : ~ In (next_id db) (ids db).
Proof. intros H. apply next_id_above in H. lia. Qed.

Lemma ids_insert db f : ids (db ++ [f]) = ids db ++ [Flight.id f].
Proof. unfold ids. now rewrite map_app. Qed.

Lemma NoDup_ids_insert db f :
  NoDup (ids db) -> ~ In (Flight.id f) (ids db) -> NoDup (ids (db ++ [f])).
Proof.
  intros H Hf. rewrite ids_insert.
  apply NoDup_app; [assumption | constructor; [intros [] | constructor] |].
  intros i Hi [<- | []]. contradiction.
Qed.

(** *** A call with a well-formed timestamp *)


(** The window test of the SELECT, read on times. *)
Lemma in_window_time cutoff_iso c f tf :
  timestamp cutoff_iso = Some c ->
  timestamp (Flight.last_seen f) = Some tf ->
  sql_ge (Flight.last_seen f) cutoff_iso = (c <=? tf).
Proof. intros Hc Hf. now apply sql_ge_timestamps. Qed.

Lemma in_split_update seen_at row db m :
  NoDup (ids db) -> In m db ->
  exists pre post,
    db = pre ++ m :: post
    /\ update_where_id (Flight.id m) seen_at row db
       = pre ++ update_event seen_at row m :: post.
Proof.
  intros Hnd Hin. apply in_split in Hin as (pre & post & ->).
  exists pre, post. split; [reflexivity|]. now apply update_where_id_split.
Qed.

(** Two rows of a table with a primary key that share their id are one. *)
Lemma same_id_same_row db f g :
  NoDup (ids db) -> In f db -> In g db -> Flight.id f = Flight.id g -> f = g.
Proof.
  unfold ids. induction db as [|h db IH]; cbn; [intros _ []|].
  intros Hnd Hf Hg E. inversion Hnd as [|? ? Hnot Hnd']; subst.
  destruct Hf as [<- | Hf], Hg as [<- | Hg]; try reflexivity.
  - exfalso. apply Hnot. rewrite E. now apply in_map.
  - exfalso. apply Hnot. rewrite <- E. now apply in_map.
  - now apply IH.
Qed.


(** *** What a call that returns has done *)

Lemma log_flight_done now row db db' :
  NoDup (ids db) ->
  log_flight now row db = Done db' ->
  let seen_at := observed_at now row in
  let event_key := _build_event_key row in
  db' = db ++ [new_event (next_id db) seen_at row event_key]
  \/ exists pre m post,
       db = pre ++ m :: post
       /\ db' = pre ++ update_event seen_at row m :: post
       /\ degenerate event_key = false
       /\ Flight.event_key m = event_key
       /\ forall f, In f db -> Flight.event_key f = event_key ->
            sql_lt (Flight.last_seen m) (Flight.last_seen f) = false.
Proof.
  intros Hnd. rewrite log_flight_eq. cbv zeta.
  destruct (degenerate (_build_event_key row)) eqn:Hdeg.
  { intros [= <-]. now left. }
  destruct (fromisoformat (observed_at now row)) as [dt|]; [|discriminate].
  destruct (minus_minutes dt EVENT_WINDOW_MINUTES) as [c|]; [|discriminate].
  destruct (select_recent _ _ db) as [m|] eqn:Esel.
  - intros [= <-]. right.
    apply select_recent_some in Esel as (Hin & Hk & _ & Hmax).
    destruct (in_split_update (observed_at now row) row db m Hnd Hin)
      as (pre & post & Hdb & Hupd).
    exists pre, m, post. repeat split; assumption.
  - intros [= <-]. now left.
Qed.

Lemma row_of_In i db f : row_of i db = Some f -> In f db /\ Flight.id f = i.
Proof.
  unfold row_of. intros H. apply find_some in H as [Hin E].
  split; [assumption | now apply Z.eqb_eq].
Qed.

Lemma NoDup_ids_update pre m post seen_at row :
  NoDup (ids (pre ++ m :: post)) ->
  NoDup (ids (pre ++ update_event seen_at row m :: post)).
Proof.
  unfold ids. rewrite !map_app. cbn [map]. intros H. exact H.
Qed.

Lemma log_flight_NoDup now row db db' :
  NoDup (ids db) -> log_flight now row db = Done db' -> NoDup (ids db').
Proof.
  intros Hnd H. destruct (log_flight_done _ _ _ _ Hnd H)
    as [-> | (pre & m & post & -> & -> & _)].
  - apply NoDup_ids_insert; [assumption | apply next_id_fresh].
  - now apply NoDup_ids_update.
Qed.

Lemma sticky_keep old new : sticky old new (COALESCE (NULLIF old "") new).
Proof.
  unfold sticky. destruct old as [[|c s]|]; cbn; split; congruence.
Qed.

(** C3, amended.  When a call updates a stored event ([m] becomes [m'],
    under the same primary key), the four telemetry columns take the
    sighting's values, null included; each of the ten descriptive columns
    the UPDATE sets keeps a value that was there and takes the sighting's
    value where it was NULL or empty; [type_code] is left as it was. *)
Theorem C3_update_merge :
  forall (now : string) (row : Row.t) (db db' : table) (m m' : Flight.t),
    NoDup (ids db) ->
    log_flight now row db = Done db' ->
    In m db -> In m' db' -> Flight.id m' = Flight.id m -> m' <> m ->
    Flight.altitude_ft m' = Row.altitude_ft row
    /\ Flight.ground_speed_kt m' = Row.ground_speed_kt row
    /\ Flight.distance_nm m' = Row.distance_nm row
    /\ Flight.heading_deg m' = Row.heading_deg row
    /\ sticky (Flight.model m) (Row.model row) (Flight.model m')
    /\ sticky (Flight.manufacturer m) (Row.manufacturer row)
              (Flight.manufacturer m')
    /\ sticky (Flight.country m) (Row.country row) (Flight.country m')
    /\ sticky (Flight.country_iso m) (Row.country_iso row)
              (Flight.country_iso m')
    /\ sticky (Flight.owner m) (Row.owner row) (Flight.owner m')
    /\ sticky (Flight.airline_name m) (Row.airline_name row)
              (Flight.airline_name m')
    /\ sticky (Flight.origin_iata m) (Row.origin_iata row)
              (Flight.origin_iata m')
    /\ sticky (Flight.origin_name m) (Row.origin_name row)
              (Flight.origin_name m')
    /\ sticky (Flight.dest_iata m) (Row.dest_iata row) (Flight.dest_iata m')
    /\ sticky (Flight.dest_name m) (Row.dest_name row) (Flight.dest_name m')
    /\ Flight.type_code m' = Flight.type_code m.
Proof.
  intros now row db db' m m' Hnd Hlog Hm Hm' Hid Hne.
  destruct (log_flight_done _ _ _ _ Hnd Hlog)
    as [-> | (pre & m0 & post & Hdb & -> & _)].
  - exfalso. apply in_app_or in Hm' as [Hold | [<- | []]].
    + apply Hne. now apply (same_id_same_row db).
    + cbn [Flight.id new_event] in Hid. apply (next_id_fresh db). rewrite Hid.
      unfold ids. now apply in_map.
  - assert (m' = update_event (observed_at now row) row m0 /\ m0 = m)
      as [-> ->].
    { assert (In m0 db) as Hm0 by (rewrite Hdb; apply in_elt).
      apply in_app_or in Hm' as [Hp | [<- | Hp]].
      - exfalso. apply Hne. apply (same_id_same_row db); try assumption.
        rewrite Hdb. apply in_or_app. now left.
      - split; [reflexivity|].
        now apply (same_id_same_row db).
      - exfalso. apply Hne. apply (same_id_same_row db); try assumption.
        rewrite Hdb. apply in_or_app. right. now right. }
    cbn. repeat split; try reflexivity; apply sticky_keep.
Qed.



(** C8, amended.  A call that returns on a table with a primary key has
    either appended one row under a fresh key, or replaced one row, the
    freshest of the sighting's key, by its update, which keeps [id], [hex],
    [reg], [callsign], [event_key] and [first_seen]; every other row is in
    its place, unchanged. *)
Theorem C8_one_write :
  forall (now : string) (row : Row.t) (db db' : table),
    NoDup (ids db) ->
    log_flight now row db = Done db' ->
    (exists f, db' = db ++ [f] /\ ~ In (Flight.id f) (ids db))
    \/
    (exists pre m m' post,
        db = pre ++ m :: post /\ db' = pre ++ m' :: post
        /\ Flight.event_key m = _build_event_key row
        /\ (forall f, In f db -> Flight.event_key f = _build_event_key row ->
              sql_lt (Flight.last_seen m) (Flight.last_seen f) = false)
        /\ Flight.id m' = Flight.id m
        /\ Flight.hex m' = Flight.hex m
        /\ Flight.reg m' = Flight.reg m
        /\ Flight.callsign m' = Flight.callsign m
        /\ Flight.event_key m' = Flight.event_key m
        /\ Flight.first_seen m' = Flight.first_seen m).
Proof.
  intros now row db db' Hnd Hlog.
  destruct (log_flight_done _ _ _ _ Hnd Hlog)
    as [-> | (pre & m & post & Hdb & -> & _ & Hk & Hmax)].
  - left. eexists. split; [reflexivity|]. apply next_id_fresh.
  - right. exists pre, m, (update_event (observed_at now row) row m), post.
    repeat split; try assumption; reflexivity.
Qed.

(** *** [seen_at] follows [last_seen] *)

Lemma log_flight_written now row db db' f :
  log_flight now row db = Done db' -> In f db' ->
  In f db
  \/ (Flight.seen_at f = observed_at now row
      /\ Flight.last_seen f = observed_at now row
      /\ (List.length db' = S (List.length db) ->
          Flight.first_seen f = observed_at now row)).
Proof.
  rewrite log_flight_eq. cbv zeta. intros Hlog Hf.
  assert (forall k,
            In f (db ++ [new_event (next_id db) (observed_at now row) row k]) ->
          In f db \/ (Flight.seen_at f = observed_at now row
            /\ Flight.last_seen f = observed_at now row
            /\ Flight.first_seen f = observed_at now row)) as Hins.
  { intros k Hin. apply in_app_or in Hin as [Hin | [<- | []]];
      [now left | right; repeat split]. }
  destruct (degenerate (_build_event_key row)).
  { injection Hlog as <-. destruct (Hins _ Hf) as [? | (? & ? & ?)]; auto. }
  destruct (fromisoformat (observed_at now row)) as [dt|]; [|discriminate].
  destruct (minus_minutes dt EVENT_WINDOW_MINUTES) as [c|]; [|discriminate].
  destruct (select_recent _ _ db) as [m|].
  - injection Hlog as <-. unfold update_where_id in Hf.
    apply in_map_iff in Hf as (f0 & <- & Hf0).
    destruct (Flight.id f0 =? Flight.id m); [right | now left].
    split; [reflexivity | split; [reflexivity|]].
    unfold update_where_id. rewrite length_map. lia.
  - injection Hlog as <-. destruct (Hins _ Hf) as [? | (? & ? & ?)]; auto.
Qed.

Lemma run_cons c calls db : run (c :: calls) db = run calls (log_quietly db c).
Proof. reflexivity. Qed.

Lemma run_app calls more db : run (calls ++ more) db = run more (run calls db).
Proof. unfold run. apply fold_left_app. Qed.

(** C10.  Every row a call writes has [seen_at = last_seen = observed_at]
    (and [first_seen] too when the row is new), so every row of a table
    the logger built has [seen_at = last_seen]. *)
Theorem C10_seen_at_is_last_seen :
  (forall now row db db' f,
      log_flight now row db = Done db' -> In f db' ->
      In f db
      \/ (Flight.seen_at f = observed_at now row
          /\ Flight.last_seen f = observed_at now row
          /\ (List.length db' = S (List.length db) ->
              Flight.first_seen f = observed_at now row)))
  /\ (forall calls f,
        In f (run calls []) -> Flight.seen_at f = Flight.last_seen f).
Proof.
  split; [exact log_flight_written|].
  intros calls.
  assert (forall db,
            (forall f, In f db -> Flight.seen_at f = Flight.last_seen f) ->
            forall f, In f (run calls db) ->
                      Flight.seen_at f = Flight.last_seen f) as G.
  { induction calls as [|[now row] calls IH]; intros db Hdb; [exact Hdb|].
    rewrite run_cons. apply IH. unfold log_quietly. cbn [fst snd].
    destruct (log_flight now row db) as [db'|e] eqn:E; [|exact Hdb].
    intros f Hf.
    destruct (log_flight_written _ _ _ _ _ E Hf) as [Hold | (H1 & H2 & _)].
    - now apply Hdb.
    - congruence. }
  apply G. intros f [].
Qed.

(** *** Sightings without an identity *)



(** *** The aggregates of the detail query *)

Lemma min_seen_at_spec rows :
  rows <> [] ->
  exists lo,
    min_seen_at rows = Some lo
    /\ (exists f, In f rows /\ Flight.seen_at f = lo)
    /\ forall f, In f rows -> sql_lt (Flight.seen_at f) lo = false.
Proof.
  induction rows as [|f rest IH]; [congruence|]. intros _.
  cbn [min_seen_at]. destruct rest as [|g rest'].
  - exists (Flight.seen_at f). cbn. repeat split.
    + exists f. auto.
    + intros h [<- | []]. apply sql_lt_irrefl.
  - destruct IH as (s & -> & (w & Hw & Ew) & Hmin); [congruence|].
    destruct (sql_lt s (Flight.seen_at f)) eqn:E.
    + exists s. repeat split.
      * exists w. split; [now right | assumption].
      * intros h [<- | Hh]; [now apply sql_lt_asym | now apply Hmin].
    + exists (Flight.seen_at f). repeat split.
      * exists f. split; [now left | reflexivity].
      * intros h [<- | Hh]; [apply sql_lt_irrefl|].
        eapply sql_not_lt_trans; [now apply Hmin | exact E].
Qed.

Lemma max_seen_at_spec rows :
  rows <> [] ->
  exists hi,
    max_seen_at rows = Some hi
    /\ (exists f, In f rows /\ Flight.seen_at f = hi)
    /\ forall f, In f rows -> sql_lt hi (Flight.seen_at f) = false.
Proof.
  induction rows as [|f rest IH]; [congruence|]. intros _.
  cbn [max_seen_at]. destruct rest as [|g rest'].
  - exists (Flight.seen_at f). cbn. repeat split.
    + exists f. auto.
    + intros h [<- | []]. apply sql_lt_irrefl.
  - destruct IH as (s & -> & (w & Hw & Ew) & Hmax); [congruence|].
    destruct (sql_lt (Flight.seen_at f) s) eqn:E.
    + exists s. repeat split.
      * exists w. split; [now right | assumption].
      * intros h [<- | Hh]; [now apply sql_lt_asym | now apply Hmax].
    + exists (Flight.seen_at f). repeat split.
      * exists f. split; [now left | reflexivity].
      * intros h [<- | Hh]; [apply sql_lt_irrefl|].
        eapply sql_not_lt_trans; [exact E | now apply Hmax].
Qed.

Lemma last_by_id_spec rows :
  rows <> [] ->
  exists r,
    last_by_id rows = Some r /\ In r rows
    /\ forall f, In f rows -> Flight.id f <= Flight.id r.
Proof.
  induction rows as [|f rest IH]; [congruence|]. intros _.
  cbn [last_by_id]. destruct rest as [|g rest'].
  - exists f. cbn. repeat split; [now left|]. intros h [<- | []]. lia.
  - destruct IH as (r & -> & Hr & Hmax); [congruence|].
    destruct (Flight.id f <? Flight.id r) eqn:E; zbool.
    + exists r. repeat split; [now right|].
      intros h [<- | Hh]; [lia | now apply Hmax].
    + exists f. repeat split; [now left|].
      intros h [<- | Hh]; [lia|]. specialize (Hmax h Hh). lia.
Qed.

(** C9, amended.  For an identity (registration, hex, or both) with at
    least one stored row, the detail query returns the columns of the
    matching row with the greatest id together with the number of matching
    event rows as [total_seen], and the least and the greatest [seen_at]
    of the matching rows, in text order, as [first_seen] and [last_seen]. *)
Theorem C9_detail_aggregates :
  forall (reg hex_code : option string) (db : table),
    let r := upper (strip (or_else reg "")) in
    let h := upper (strip (or_else hex_code "")) in
    let rows := filter (where_ r h) db in
    is_empty r && is_empty h = false ->
    rows <> [] ->
    exists last lo hi,
      get_flight_detail reg hex_code db
      = Some (detail_of last (Z.of_nat (List.length rows)) (Some lo) (Some hi))
      /\ In last rows
      /\ (forall f, In f rows -> Flight.id f <= Flight.id last)
      /\ (exists f, In f rows /\ Flight.seen_at f = lo)
      /\ (forall f, In f rows -> sql_lt (Flight.seen_at f) lo = false)
      /\ (exists f, In f rows /\ Flight.seen_at f = hi)
      /\ (forall f, In f rows -> sql_lt hi (Flight.seen_at f) = false).
Proof.
  intros reg hex_code db r h rows Hid Hrows.
  destruct (last_by_id_spec rows Hrows) as (last & Hlast & Hin & Hmax).
  destruct (min_seen_at_spec rows Hrows) as (lo & Hlo & Hlo1 & Hlo2).
  destruct (max_seen_at_spec rows Hrows) as (hi & Hhi & Hhi1 & Hhi2).
  exists last, lo, hi. unfold get_flight_detail.
  fold r h. rewrite Hid. fold rows. cbv zeta. rewrite Hlast, Hlo, Hhi.
  repeat split; assumption.
Qed.

(** *** What one call of the loop does to the table *)

Lemma log_quietly_NoDup db c :
  NoDup (ids db) -> NoDup (ids (log_quietly db c)).
Proof.
  intros H. unfold log_quietly.
  destruct (log_flight (fst c) (snd c) db) as [db'|e] eqn:E; [|exact H].
  now apply (log_flight_NoDup _ _ _ _ H E).
Qed.

Lemma run_NoDup calls : forall db,
  NoDup (ids db) -> NoDup (ids (run calls db)).
Proof.
  induction calls as [|c calls IH]; intros db H; [exact H|].
  rewrite run_cons. apply IH. now apply log_quietly_NoDup.
Qed.

Lemma log_quietly_cases db c :
  let seen_at := call_stamp c in
  let event_key := _build_event_key (snd c) in
  log_quietly db c = db
  \/ (log_quietly db c
      = db ++ [new_event (next_id db) seen_at (snd c) event_key]
      /\ (degenerate event_key = true
          \/ exists t,
               call_time c = Some t
               /\ forall f tf, In f db -> Flight.event_key f = event_key ->
                    timestamp (Flight.last_seen f) = Some tf ->
                    tf < t - WINDOW))
  \/ (exists m t,
        call_time c = Some t
        /\ In m db /\ Flight.event_key m = event_key
        /\ degenerate event_key = false
        /\ log_quietly db c
           = update_where_id (Flight.id m) seen_at (snd c) db
        /\ forall f tf tm, In f db -> Flight.event_key f = event_key ->
             timestamp (Flight.last_seen f) = Some tf ->
             timestamp (Flight.last_seen m) = Some tm -> tf <= tm).
Proof.
  destruct c as [now row]. unfold call_time, call_stamp, log_quietly.
  cbn [fst snd]. cbv zeta. rewrite log_flight_eq. cbv zeta.
  destruct (degenerate (_build_event_key row)) eqn:Hdeg.
  { right. left. split; [reflexivity | now left]. }
  destruct (timestamp (observed_at now row)) as [t|] eqn:Ht.
  2:{ unfold timestamp in Ht.
      destruct (fromisoformat (observed_at now row)); [discriminate|now left]. }
  pose proof Ht as Ht'.
  apply timestamp_inv in Ht' as (dt & Hdt & Hv & _ & Hs). rewrite Hdt.
  destruct (minus_minutes dt EVENT_WINDOW_MINUTES) as [c|] eqn:Ec;
    [|now left].
  pose proof (cutoff_timestamp dt c Hv Ec) as Hc. rewrite Hs in Hc.
  destruct (select_recent _ _ db) as [m|] eqn:Esel.
  - right. right. exists m, t.
    apply select_recent_some in Esel as (Hin & Hk & _ & Hmax).
    repeat split; try assumption.
    intros f tf tm Hf Hkf Htf Htm. specialize (Hmax f Hf Hkf).
    rewrite (sql_lt_timestamps _ _ _ _ Htm Htf) in Hmax. now apply Z.ltb_ge.
  - right. left. split; [reflexivity|]. right. exists t.
    split; [reflexivity|]. intros f tf Hf Hkf Htf.
    pose proof (select_recent_none _ _ _ Esel f Hf Hkf) as Hge.
    rewrite (in_window_time _ _ _ _ Hc Htf) in Hge.
    apply Z.leb_gt in Hge. unfold WINDOW, EVENT_WINDOW_MINUTES. lia.
Qed.

(** The rows of the new table are the rows of the old one, updated or
    not. *)
Lemma In_update_where_id_inv i seen_at row db f' :
  In f' (update_where_id i seen_at row db) ->
  exists f, In f db
    /\ ((Flight.id f = i /\ f' = update_event seen_at row f)
        \/ (Flight.id f <> i /\ f' = f)).
Proof.
  unfold update_where_id. intros H.
  apply in_map_iff in H as (f & <- & Hf). exists f. split; [assumption|].
  destruct (Z.eqb_spec (Flight.id f) i); [left | right]; now split.
Qed.

(** In every table the logger builds, the events of an identity carry a
    timestamp in [last_seen]: the hypothesis of the window lookup holds of
    the tables the code reaches. *)
Lemma run_keyed_stamped calls : forall db,
  (forall f, In f db -> degenerate (Flight.event_key f) = false ->
     exists t, timestamp (Flight.last_seen f) = Some t) ->
  forall f, In f (run calls db) -> degenerate (Flight.event_key f) = false ->
    exists t, timestamp (Flight.last_seen f) = Some t.
Proof.
  induction calls as [|c calls IH]; intros db Hdb; [exact Hdb|].
  rewrite run_cons. apply IH.
  destruct (log_quietly_cases db c)
    as [-> | [[-> Hnew] | (m & t & Ht & _ & _ & _ & -> & _)]].
  - exact Hdb.
  - intros f Hf Hdeg. apply in_app_or in Hf as [Hf | [<- | []]];
      [now apply Hdb|].
    cbn [new_event Flight.event_key Flight.last_seen] in *.
    destruct Hnew as [Hd | (t & Ht & _)]; [congruence | eauto].
  - intros f' Hf' Hdeg.
    apply In_update_where_id_inv in Hf' as (f & Hf & [[_ ->] | [_ ->]]).
    + cbn [update_event Flight.last_seen]. eauto.
    + now apply Hdb.
Qed.

(** [times_seen] is at least 1 in every table the logger builds. *)
Lemma run_times_seen_pos calls : forall db,
  (forall f, In f db -> 1 <= Flight.times_seen f) ->
  forall f, In f (run calls db) -> 1 <= Flight.times_seen f.
Proof.
  induction calls as [|c calls IH]; intros db Hdb; [exact Hdb|].
  rewrite run_cons. apply IH.
  destruct (log_quietly_cases db c)
    as [-> | [[-> _] | (m & t & _ & _ & _ & _ & -> & _)]].
  - exact Hdb.
  - intros f Hf. apply in_app_or in Hf as [Hf | [<- | []]];
      [now apply Hdb|].
    cbn [new_event Flight.times_seen]. lia.
  - intros f' Hf'.
    apply In_update_where_id_inv in Hf' as (f & Hf & [[_ ->] | [_ ->]]);
      [|now apply Hdb].
    specialize (Hdb f Hf). cbn [update_event Flight.times_seen]. lia.
Qed.

(** *** The open event of a key is unique *)









(** *** Calls in chronological order *)

Lemma stamped_nil hi : stamped hi [].
Proof. split; [constructor | intros f []]. Qed.

Lemma stamped_step hi t db c :
  stamped hi db -> call_time c = Some t -> hi <= t ->
  stamped t (log_quietly db c).
Proof.
  intros (Hnd & Hst) Ht Hle.
  assert (forall f, In f db ->
            exists t1 t2,
              timestamp (Flight.first_seen f) = Some t1
              /\ timestamp (Flight.last_seen f) = Some t2 /\ t1 <= t2 <= t)
    as Hst'.
  { intros f Hf. destruct (Hst f Hf) as (t1 & t2 & H1 & H2 & H3).
    exists t1, t2. repeat split; try assumption; lia. }
  split; [now apply log_quietly_NoDup|].
  destruct (log_quietly_cases db c)
    as [-> | [[-> _] | (m & t' & Ht' & _ & _ & _ & -> & _)]].
  - exact Hst'.
  - intros f Hf. apply in_app_or in Hf as [Hf | [<- | []]];
      [now apply Hst'|].
    exists t, t. cbn [new_event Flight.first_seen Flight.last_seen].
    repeat split; try assumption; lia.
  - intros f' Hf'.
    apply In_update_where_id_inv in Hf' as (f & Hf & [[_ ->] | [_ ->]]);
      [|now apply Hst'].
    destruct (Hst f Hf) as (t1 & t2 & H1 & H2 & H3).
    exists t1, t. cbn [update_event Flight.first_seen Flight.last_seen].
    repeat split; try assumption; lia.
Qed.

Lemma chronological_from_app lo calls more :
  chronological_from lo (calls ++ more)
  = chronological_from lo calls && chronological_from (latest lo calls) more.
Proof.
  revert lo. induction calls as [|c calls IH]; intros lo; [reflexivity|].
  cbn [app chronological_from latest].
  destruct (call_time c) as [t|]; [|reflexivity].
  rewrite IH. now rewrite andb_assoc.
Qed.

Lemma stamped_run calls : forall hi db,
  stamped hi db -> chronological_from hi calls = true ->
  stamped (latest hi calls) (run calls db).
Proof.
  induction calls as [|c calls IH]; intros hi db Hsp Hch; [exact Hsp|].
  rewrite run_cons. cbn [chronological_from latest] in *.
  destruct (call_time c) as [t|] eqn:Ht; [|discriminate].
  apply andb_true_iff in Hch as [H1 H2]. zbool.
  apply IH; [|assumption]. now apply (stamped_step hi).
Qed.

(** *** The life of one row *)

(** The row a stored row has become after one call. *)
Lemma successor db c m :
  NoDup (ids db) -> In m db ->
  exists m1,
    In m1 (log_quietly db c)
    /\ Flight.id m1 = Flight.id m
    /\ Flight.first_seen m1 = Flight.first_seen m
    /\ (m1 = m \/ Flight.last_seen m1 = call_stamp c).
Proof.
  intros Hnd Hm. unfold log_quietly, call_stamp.
  destruct (log_flight (fst c) (snd c) db) as [db'|e] eqn:E.
  2:{ exists m. auto. }
  destruct (log_flight_done _ _ _ _ Hnd E)
    as [-> | (pre & m0 & post & -> & -> & _)].
  - exists m. repeat split; auto. apply in_or_app. now left.
  - apply in_app_or in Hm as [Hm | [<- | Hm]].
    + exists m. repeat split; auto. apply in_or_app. now left.
    + eexists. split; [apply in_elt|]. repeat split. now right.
    + exists m. repeat split; auto. apply in_or_app. right. now right.
Qed.

Lemma stamp_le_trans a b c : stamp_le a b -> stamp_le b c -> stamp_le a c.
Proof.
  intros (ta & tb & Ha & Hb & Hab) (tb' & tc & Hb' & Hc & Hbc).
  exists ta, tc. repeat split; try assumption.
  assert (tb = tb') by congruence. lia.
Qed.

Lemma run_successor more : forall db m,
  NoDup (ids db) -> In m db ->
  exists m',
    In m' (run more db)
    /\ Flight.id m' = Flight.id m
    /\ Flight.first_seen m' = Flight.first_seen m
    /\ forall hi, stamped hi db -> chronological_from hi more = true ->
         stamp_le (Flight.last_seen m) (Flight.last_seen m').
Proof.
  induction more as [|c more IH]; intros db m Hnd Hm.
  - exists m. repeat split; try assumption.
    intros hi (_ & Hst) _. destruct (Hst m Hm) as (t1 & t2 & _ & H2 & _).
    exists t2, t2. repeat split; try assumption; lia.
  - destruct (successor db c m Hnd Hm) as (m1 & Hm1 & Hid1 & Hfs1 & Hls1).
    destruct (IH (log_quietly db c) m1 (log_quietly_NoDup db c Hnd) Hm1)
      as (m' & Hm' & Hid & Hfs & Hls).
    exists m'. rewrite run_cons. repeat split; try congruence.
    intros hi Hsp Hch. cbn [chronological_from] in Hch.
    destruct (call_time c) as [t|] eqn:Ht; [|discriminate].
    apply andb_true_iff in Hch as [Hle Hch]. zbool.
    apply (stamp_le_trans _ (Flight.last_seen m1)).
    + destruct Hsp as (_ & Hst).
      destruct (Hst m Hm) as (t1 & t2 & _ & H2 & H3).
      destruct Hls1 as [-> | ->].
      * exists t2, t2. repeat split; try assumption; lia.
      * exists t2, t. repeat split; try assumption; lia.
    + apply (Hls t); [|assumption].
      now apply (stamped_step hi).
Qed.

(** C4, amended.  [first_seen] of a stored row never changes.  When the
    calls carry well-formed timestamps in chronological order, every row
    has [first_seen <= last_seen] and [last_seen] never goes back. *)
Theorem C4_timestamps :
  forall (calls more : list call) (m m' : Flight.t),
    In m (run calls []) ->
    In m' (run (calls ++ more) []) ->
    Flight.id m' = Flight.id m ->
    Flight.first_seen m' = Flight.first_seen m
    /\ (chronological (calls ++ more) = true ->
          stamp_le (Flight.first_seen m') (Flight.last_seen m')
          /\ stamp_le (Flight.last_seen m) (Flight.last_seen m')).
Proof.
  intros calls more m m' Hm Hm' Hid.
  assert (NoDup (ids (run calls []))) as Hnd
    by (apply run_NoDup; constructor).
  rewrite run_app in Hm'.
  destruct (run_successor more _ m Hnd Hm) as (m2 & Hm2 & Hid2 & Hfs & Hls).
  assert (m' = m2) as ->.
  { apply (same_id_same_row (run more (run calls []))); try assumption.
    - now apply run_NoDup.
    - congruence. }
  split; [assumption|]. unfold chronological.
  rewrite chronological_from_app. intros Hch.
  apply andb_true_iff in Hch as [Hch1 Hch2].
  pose proof (stamped_run calls 0 [] (stamped_nil 0) Hch1) as Hsp.
  split.
  - pose proof (stamped_run more _ _ Hsp Hch2) as (_ & Hst).
    destruct (Hst m2 Hm2) as (t1 & t2 & H1 & H2 & H3).
    exists t1, t2. repeat split; try assumption; lia.
  - now apply (Hls (latest 0 calls)).
Qed.

(** *** A run of sightings that coalesce into one event *)

Lemma row_of_app_None i db f :
  row_of i db = None ->
  row_of i (db ++ [f]) = if Flight.id f =? i then Some f else None.
Proof.
  unfold row_of. induction db as [|g db IH]; cbn; [reflexivity|].
  destruct (Flight.id g =? i); [discriminate | exact IH].
Qed.

Lemma row_of_present i db f :
  NoDup (ids db) -> In f db -> Flight.id f = i -> row_of i db = Some f.
Proof.
  intros Hnd Hf Hi. destruct (row_of i db) as [g|] eqn:E.
  - apply row_of_In in E as [Hg Hgi]. f_equal.
    apply (same_id_same_row db); congruence.
  - exfalso. unfold row_of in E.
    apply (find_none _ _ E) in Hf. cbn in Hf. apply Z.eqb_neq in Hf.
    contradiction.
Qed.

Lemma row_of_update_other i pre m m' post :
  Flight.id m' = Flight.id m -> Flight.id m <> i ->
  row_of i (pre ++ m' :: post) = row_of i (pre ++ m :: post).
Proof.
  intros E Hne. unfold row_of. induction pre as [|g pre IH]; cbn.
  - rewrite E. apply Z.eqb_neq in Hne. now rewrite Hne.
  - destruct (Flight.id g =? i); [reflexivity | exact IH].
Qed.

Lemma opens_inv i c db :
  NoDup (ids db) -> opens i c db ->
  log_quietly db c
  = db ++ [new_event i (call_stamp c) (snd c) (_build_event_key (snd c))]
  /\ ~ In i (ids db).
Proof.
  intros Hnd (db' & Hlog & Hlen & Hnone & Hsome).
  unfold log_quietly, call_stamp. rewrite Hlog.
  destruct (log_flight_done _ _ _ _ Hnd Hlog)
    as [-> | (pre & m & post & -> & -> & _)].
  - rewrite (row_of_app_None _ _ _ Hnone) in Hsome.
    cbn [new_event Flight.id] in Hsome.
    destruct (Z.eqb_spec (next_id db) i) as [<- | Hne]; [|congruence].
    split; [reflexivity | apply next_id_fresh].
  - exfalso. rewrite !length_app in Hlen. cbn in Hlen. lia.
Qed.

Lemma coalesces_inv i c db e :
  NoDup (ids db) -> row_of i db = Some e -> coalesces_into i c db ->
  row_of i (log_quietly db c) = Some (update_event (call_stamp c) (snd c) e).
Proof.
  intros Hnd He (db' & Hlog & Hlen & Hchg).
  pose proof (log_flight_NoDup _ _ _ _ Hnd Hlog) as Hnd'.
  unfold log_quietly, call_stamp. rewrite Hlog.
  destruct (log_flight_done _ _ _ _ Hnd Hlog)
    as [-> | (pre & m & post & Hdb & -> & _)].
  - exfalso. rewrite length_app in Hlen. cbn in Hlen. lia.
  - destruct (Z.eq_dec (Flight.id m) i) as [Hi | Hne].
    + apply row_of_In in He as [Hin Hid].
      assert (e = m) as ->.
      { apply (same_id_same_row db); try assumption; [|congruence].
        rewrite Hdb. apply in_elt. }
      apply row_of_present; [assumption | apply in_elt | exact Hi].
    + exfalso. apply Hchg. rewrite Hdb. now apply row_of_update_other.
Qed.

Lemma last_cons {A} (a d : A) l : last (a :: l) d = last l a.
Proof.
  revert a d. induction l as [|b l IH]; intros a d; [reflexivity|].
  change (last (a :: b :: l) d) with (last (b :: l) d).
  now rewrite !IH.
Qed.

Lemma coalesce_run rest : forall db e c0 i,
  NoDup (ids db) -> row_of i db = Some e ->
  Flight.last_seen e = call_stamp c0 ->
  all_coalesce_into i rest db ->
  exists e',
    row_of i (run rest db) = Some e'
    /\ Flight.times_seen e' = Flight.times_seen e + Z.of_nat (List.length rest)
    /\ Flight.first_seen e' = Flight.first_seen e
    /\ Flight.last_seen e' = call_stamp (last rest c0).
Proof.
  induction rest as [|c rest IH]; intros db e c0 i Hnd He Hls Hall.
  - exists e. cbn. repeat split; try assumption; lia.
  - destruct Hall as [Hc Hall].
    pose proof (coalesces_inv i c db e Hnd He Hc) as He1.
    destruct (IH _ _ c i (log_quietly_NoDup db c Hnd) He1 eq_refl Hall)
      as (e' & He' & Hts & Hfs & Hls').
    exists e'. rewrite run_cons, last_cons.
    repeat split; try assumption.
    rewrite Hts. cbn [update_event Flight.times_seen List.length]. lia.
Qed.

Lemma last_In {A} (l : list A) (d : A) : l <> [] -> In (last l d) l.
Proof.
  induction l as [|a l IH]; [congruence|]. intros _.
  destruct l as [|b l]; [now left|].
  right. apply IH. congruence.
Qed.

Lemma chronological_from_bound lo calls x :
  chronological_from lo calls = true -> In x calls ->
  exists tx, call_time x = Some tx /\ lo <= tx.
Proof.
  revert lo. induction calls as [|c calls IH]; intros lo H Hin;
    [destruct Hin|].
  cbn in H. destruct (call_time c) as [t|] eqn:Ht; [|discriminate].
  apply andb_true_iff in H as [H1 H2]. zbool.
  destruct Hin as [<- | Hin].
  - eauto.
  - destruct (IH t H2 Hin) as (tx & Hx & Hle).
    exists tx. split; [assumption|lia].
Qed.

Lemma chronological_from_last lo calls d x :
  chronological_from lo calls = true -> In x calls ->
  exists tx tl,
    call_time x = Some tx /\ call_time (last calls d) = Some tl /\ tx <= tl.
Proof.
  revert lo d. induction calls as [|c calls IH]; intros lo d H Hin;
    [destruct Hin|].
  cbn in H. destruct (call_time c) as [t|] eqn:Ht; [|discriminate].
  apply andb_true_iff in H as [H1 H2]. zbool. rewrite last_cons.
  destruct Hin as [<- | Hin].
  - destruct calls as [|c' calls'].
    + exists t, t. cbn. repeat split; try assumption; lia.
    + destruct (chronological_from_bound t (c' :: calls')
                  (last (c' :: calls') c) H2) as (tl & Hl & Hle).
      { apply last_In. congruence. }
      exists t, tl. auto.
  - now apply (IH t c).
Qed.

(** C6, amended.  When a call opens event [i] and the calls after it all
    coalesce into it, the event ends with [times_seen] equal to the number
    of calls, [first_seen] the timestamp of the first call and [last_seen]
    the timestamp of the last call; these are the earliest and the latest
    of the timestamps when the calls are in chronological order. *)
Theorem C6_coalesced_counts :
  forall (c : call) (rest : list call) (db : table) (i : Z),
    NoDup (ids db) ->
    opens i c db ->
    all_coalesce_into i rest (log_quietly db c) ->
    exists e,
      row_of i (run (c :: rest) db) = Some e
      /\ Flight.times_seen e = Z.of_nat (List.length (c :: rest))
      /\ Flight.first_seen e = call_stamp c
      /\ Flight.last_seen e = call_stamp (last rest c)
      /\ (chronological (c :: rest) = true ->
            forall x, In x (c :: rest) ->
              stamp_le (call_stamp c) (call_stamp x)
              /\ stamp_le (call_stamp x) (call_stamp (last rest c))).
Proof.
  intros c rest db i Hnd Hopen Hall.
  destruct (opens_inv i c db Hnd Hopen) as [Hdb1 Hfresh].
  pose proof (log_quietly_NoDup db c Hnd) as Hnd1.
  set (new := new_event i (call_stamp c) (snd c) (_build_event_key (snd c)))
    in *.
  assert (row_of i (log_quietly db c) = Some new) as Hrow.
  { apply row_of_present; [assumption | | reflexivity].
    rewrite Hdb1. apply in_elt. }
  destruct (coalesce_run rest _ new c i Hnd1 Hrow eq_refl Hall)
    as (e & He & Hts & Hfs & Hls).
  exists e. rewrite run_cons.
  split; [assumption|]. split.
  { rewrite Hts. cbn [new new_event Flight.times_seen List.length]. lia. }
  split; [assumption|]. split; [assumption|].
  intros Hch x Hx. unfold chronological in Hch. split.
  - pose proof (chronological_from_bound 0 (c :: rest) c Hch
                  (or_introl eq_refl)) as (tc & Htc & _).
    pose proof (chronological_from_bound 0 (c :: rest) x Hch Hx)
      as (tx & Htx & _).
    exists tc, tx. repeat split; try assumption.
    cbn [chronological_from] in Hch.
    rewrite Htc in Hch. apply andb_true_iff in Hch as [_ Hch].
    destruct Hx as [<- | Hx]; [assert (tc = tx) by congruence; lia|].
    destruct (chronological_from_bound tc rest x Hch Hx)
      as (tx' & Htx' & Hle).
    assert (tx = tx') by congruence. lia.
  - destruct (chronological_from_last 0 (c :: rest) c x Hch Hx)
      as (tx & tl & Htx & Htl & Hle).
    rewrite last_cons in Htl. exists tx, tl. auto.
Qed.

(* ===================================================================== *)
(** * The statements on the sample sightings                              *)
(* ===================================================================== *)

Lemma first_event_NoDup : NoDup (ids [first_event]).
Proof. repeat constructor. intros []. Defined.






(** C3 as stated fails for [type_code]: the event was opened without a
    type code; the sighting that updates it brings one, and the stored
    [type_code] stays NULL. *)
Lemma C3_counterexample :
  ~ (forall m m',
       row_of 1 (run [at_1000] []) = Some m ->
       row_of 1 (run [at_1000; at_1005] []) = Some m' ->
       sticky (Flight.type_code m) (Row.type_code (snd at_1005))
              (Flight.type_code m')).
Proof.
  intros H. destruct (H _ _ eq_refl eq_refl) as [_ Hfill].
  specialize (Hfill eq_refl). vm_compute in Hfill. discriminate.
Qed.

(** C3, amended, on scenario A of the specification. *)
Lemma C3_update_merge_witness :
  let m' := update_event "2024-01-01T10:05:00" (snd at_1005) first_event in
  Flight.altitude_ft m' = Some 31000
  /\ sticky (Flight.owner first_event) (Some "United") (Flight.owner m')
  /\ Flight.type_code m' = Flight.type_code first_event.
Proof.
  intros m'.
  assert (m' <> first_event) as Hne.
  { intros E. apply (f_equal Flight.times_seen) in E. vm_compute in E.
    discriminate. }
  pose proof (C3_update_merge noon (snd at_1005) [first_event] [m']
                first_event m' first_event_NoDup eq_refl
                (or_introl eq_refl) (or_introl eq_refl) eq_refl Hne) as H.
  repeat split; apply H.
Defined.

(** C4 as stated fails for sightings out of order: a sighting stamped
    09:55:00 after the event was opened at 10:00:00 coalesces, and the row
    ends with [last_seen] before [first_seen]. *)
Lemma C4_counterexample :
  ~ (forall f, In f (run [at_1000; at_0955] []) ->
       stamp_le (Flight.first_seen f) (Flight.last_seen f)).
Proof.
  intros H.
  destruct (H (update_event "2024-01-01T09:55:00" (snd at_0955) first_event)
              (or_introl eq_refl)) as (ta & tb & Ha & Hb & Hle).
  vm_compute in Ha, Hb. injection Ha as <-. injection Hb as <-. lia.
Qed.

(** C4, amended, on scenario A. *)
Lemma C4_timestamps_witness :
  let m' := update_event "2024-01-01T10:05:00" (snd at_1005) first_event in
  Flight.first_seen m' = Flight.first_seen first_event
  /\ stamp_le (Flight.first_seen m') (Flight.last_seen m')
  /\ stamp_le (Flight.last_seen first_event) (Flight.last_seen m').
Proof.
  intros m'.
  pose proof (C4_timestamps [at_1000] [at_1005] first_event m'
                (or_introl eq_refl) (or_introl eq_refl) eq_refl) as [H1 H2].
  split; [exact H1|]. apply H2. vm_compute. reflexivity.
Defined.


(** C6 as stated fails for the same two sightings: both coalesce into
    event 1, which ends with [first_seen] the later of the two timestamps
    and [last_seen] the earlier. *)
Lemma C6_counterexample :
  opens 1 at_1000 []
  /\ all_coalesce_into 1 [at_0955] (log_quietly [] at_1000)
  /\ option_map Flight.first_seen (row_of 1 (run [at_1000; at_0955] []))
     = Some "2024-01-01T10:00:00"
  /\ option_map Flight.last_seen (row_of 1 (run [at_1000; at_0955] []))
     = Some "2024-01-01T09:55:00"
  /\ time_of "2024-01-01T09:55:00" < time_of "2024-01-01T10:00:00".
Proof.
  split; [|split; [|split; [|split]]].
  - eexists. split; [reflexivity|]. vm_compute. repeat split. discriminate.
  - split; [|exact I]. eexists. split; [reflexivity|]. split; [reflexivity|].
    vm_compute. discriminate.
  - reflexivity.
  - reflexivity.
  - vm_compute. reflexivity.
Qed.

Lemma at_1000_opens : opens 1 at_1000 [].
Proof.
  eexists. split; [reflexivity|]. vm_compute. repeat split. discriminate.
Defined.

Lemma at_1005_coalesces :
  all_coalesce_into 1 [at_1005] (log_quietly [] at_1000).
Proof.
  split; [|exact I]. eexists. split; [reflexivity|]. split; [reflexivity|].
  vm_compute. discriminate.
Defined.

(** C6, amended, on scenario A. *)
Lemma C6_coalesced_counts_witness :
  exists e,
    row_of 1 (run [at_1000; at_1005] []) = Some e
    /\ Flight.times_seen e = 2
    /\ Flight.first_seen e = "2024-01-01T10:00:00"
    /\ Flight.last_seen e = "2024-01-01T10:05:00".
Proof.
  destruct (C6_coalesced_counts at_1000 [at_1005] [] 1 (NoDup_nil Z)
              at_1000_opens at_1005_coalesces) as (e & H1 & H2 & H3 & H4 & _).
  exists e. repeat split; assumption.
Defined.



(** C8 as stated fails for a sighting with month 13: the call raises and
    the table is as it was, with no row inserted and none updated. *)
Lemma C8_counterexample :
  let bad := ual123 (Some "2024-13-01T10:00:00") None None None in
  log_flight noon bad [first_event] = Raised ValueError
  /\ log_quietly [first_event] (noon, bad) = [first_event].
Proof. split; reflexivity. Qed.

(** C8, amended, on scenario A: the second sighting replaces the one
    row. *)
Lemma C8_one_write_witness :
  let db' := [update_event "2024-01-01T10:05:00" (snd at_1005) first_event] in
  (exists f, db' = [first_event] ++ [f]
             /\ ~ In (Flight.id f) (ids [first_event]))
  \/
  (exists pre m m' post,
      [first_event] = pre ++ m :: post /\ db' = pre ++ m' :: post
      /\ Flight.event_key m = _build_event_key (snd at_1005)
      /\ (forall f, In f [first_event] ->
            Flight.event_key f = _build_event_key (snd at_1005) ->
            sql_lt (Flight.last_seen m) (Flight.last_seen f) = false)
      /\ Flight.id m' = Flight.id m
      /\ Flight.hex m' = Flight.hex m
      /\ Flight.reg m' = Flight.reg m
      /\ Flight.callsign m' = Flight.callsign m
      /\ Flight.event_key m' = Flight.event_key m
      /\ Flight.first_seen m' = Flight.first_seen m).
Proof.
  exact (C8_one_write noon (snd at_1005) [first_event] _ first_event_NoDup
           eq_refl).
Defined.

(** C9 as stated fails for one event seen twice: the detail query reports
    [total_seen = 1], the number of rows, where the sightings of the
    aircraft number 2. *)
Lemma C9_counterexample :
  option_map Detail.total_seen
    (get_flight_detail None (Some "a1b2") (run [at_1000; at_1005] []))
  = Some 1
  /\ sum_times_seen
       (filter (where_ "" "A1B2") (run [at_1000; at_1005] [])) = 2.
Proof. split; reflexivity. Qed.

(** C9, amended, on two events of one aircraft: [total_seen = 2]. *)
Lemma C9_detail_aggregates_witness :
  exists last lo hi,
    get_flight_detail None (Some " a1b2 ")
      (run [at_1000; at_1005; at_1030] [])
    = Some (detail_of last 2 (Some lo) (Some hi))
    /\ Flight.id last = 2.
Proof.
  destruct (C9_detail_aggregates None (Some " a1b2 ")
              (run [at_1000; at_1005; at_1030] []) eq_refl)
    as (last & lo & hi & Hd & Hin & Hmax & _).
  - vm_compute. discriminate.
  - exists last, lo, hi. split; [exact Hd|].
    vm_compute in Hin. destruct Hin as [<- | [<- | []]].
    + specialize (Hmax (new_event 2 "2024-01-01T10:30:00" (snd at_1030)
                          "A1B2||UAL123")).
      exfalso. vm_compute in Hmax. apply Hmax; [right; left; reflexivity|].
      reflexivity.
    + reflexivity.
Defined.

(** C10 on scenario A. *)
Lemma C10_seen_at_is_last_seen_witness :
  let m' := update_event "2024-01-01T10:05:00" (snd at_1005) first_event in
  Flight.seen_at m' = Flight.last_seen m'.
Proof.
  intros m'.
  exact (proj2 C10_seen_at_is_last_seen [at_1000; at_1005] m'
           (or_introl eq_refl)).
Defined.

(* ===================================================================== *)
(** * The scenarios of the specification                                  *)
(* ===================================================================== *)

(** Scenario A: the second sighting updates the row of the first. *)
Example scenario_A :
  run [at_1000; at_1005] []
  = [update_event "2024-01-01T10:05:00" (snd at_1005) first_event]
  /\ map summary (run [at_1000; at_1005] [])
     = [(1, "A1B2||UAL123", "2024-01-01T10:00:00", "2024-01-01T10:05:00", 2)]
  /\ map Flight.altitude_ft (run [at_1000; at_1005] []) = [Some 31000]
  /\ map Flight.owner (run [at_1000; at_1005] []) = [Some "United"].
Proof. repeat split. Qed.

(** Scenario B: 25 minutes apart, two events. *)
Example scenario_B :
  map summary
    (run [c3d4 "2024-01-01T09:00:00"; c3d4 "2024-01-01T09:25:00"] [])
  = [(1, "C3D4||", "2024-01-01T09:00:00", "2024-01-01T09:00:00", 1);
     (2, "C3D4||", "2024-01-01T09:25:00", "2024-01-01T09:25:00", 1)].
Proof. reflexivity. Qed.

(** Scenario C: no identity, two events under the degenerate key. *)
Example scenario_C :
  map summary
    (run [("2024-01-01T09:00:00", nobody); ("2024-01-01T09:00:12", nobody)] [])
  = [(1, "||", "2024-01-01T09:00:00", "2024-01-01T09:00:00", 1);
     (2, "||", "2024-01-01T09:00:12", "2024-01-01T09:00:12", 1)].
Proof. reflexivity. Qed.

(** The window lookup has no upper bound: at a query time before the last
    sighting, both events of scenario B are within the window. *)
Example scenario_B_queried_early :
  List.length
    (open_events "C3D4||" (time_of "2024-01-01T09:10:00")
       (run [c3d4 "2024-01-01T09:00:00"; c3d4 "2024-01-01T09:25:00"] []))
  = 2%nat.
Proof. reflexivity. Qed.

(** The window is closed at its lower end: a sighting exactly 20 minutes
    after [last_seen] still coalesces. *)
Example scenario_window_edge :
  map summary
    (run [c3d4 "2024-01-01T09:00:00"; c3d4 "2024-01-01T09:20:00"] [])
  = [(1, "C3D4||", "2024-01-01T09:00:00", "2024-01-01T09:20:00", 2)].
Proof. reflexivity. Qed.

(** A timestamp within 20 minutes of [datetime.min]: the subtraction
    overflows. *)
Example scenario_overflow :
  log_flight noon (snd (c3d4 "0001-01-01T00:10:00")) [] = Raised OverflowError.
Proof. reflexivity. Qed.

(* ===================================================================== *)
(** * Further properties of the code                                      *)
(* ===================================================================== *)

(** ** flight_logger.py: keys, outcomes, ids and the life of a row *)

(** *** The event key and the identity it stands for *)

Lemma build_event_key_identity row :
  _build_event_key row = key_of (identity row).
Proof. reflexivity. Qed.

Lemma append_pipe_inj a a' x x' :
  has_char "|" a = false -> has_char "|" a' = false ->
  (a ++ String "|" x = a' ++ String "|" x')%string -> a = a' /\ x = x'.
Proof.
  revert a'. induction a as [|c a IH]; intros [|c' a'] Ha Ha' E; cbn in *.
  - injection E as <-. now split.
  - injection E as <- _. rewrite Ascii.eqb_refl in Ha'. discriminate.
  - injection E as -> _. rewrite Ascii.eqb_refl in Ha. discriminate.
  - injection E as <- E.
    apply orb_false_iff in Ha as [_ Ha]. apply orb_false_iff in Ha' as [_ Ha'].
    destruct (IH a' Ha Ha' E) as [-> ->]. now split.
Qed.

(** X1.  Sightings whose stripped hex and registration hold no [|] have
    the same event key exactly when their stripped hex, registration and
    callsign agree: the key separates identities. *)
Theorem event_key_separates_identities :
  forall (r1 r2 : Row.t),
    has_char "|" (fst (fst (identity r1))) = false ->
    has_char "|" (snd (fst (identity r1))) = false ->
    has_char "|" (fst (fst (identity r2))) = false ->
    has_char "|" (snd (fst (identity r2))) = false ->
    (_build_event_key r1 = _build_event_key r2 <-> identity r1 = identity r2).
Proof.
  intros r1 r2. rewrite !build_event_key_identity.
  destruct (identity r1) as [[h1 g1] c1]. destruct (identity r2) as [[h2 g2] c2].
  cbn [fst snd key_of]. intros H1 G1 H2 G2. split; [|congruence].
  intros E.
  apply append_pipe_inj in E as [-> E]; try assumption.
  apply append_pipe_inj in E as [-> ->]; try assumption. reflexivity.
Qed.

Lemma remove_char_app c a b :
  remove_char c (a ++ b)%string
  = (remove_char c a ++ remove_char c b)%string.
Proof.
  induction a as [|d a IH]; cbn; [reflexivity|].
  destruct (Ascii.eqb d c); cbn; now rewrite IH.
Qed.

Lemma is_empty_app a b : is_empty (a ++ b)%string = is_empty a && is_empty b.
Proof. destruct a; reflexivity. Qed.

(** X2.  A sighting is stored as a new event without any lookup exactly
    when each of its identity fields, stripped, is empty or made of [|]
    only; a field of white space counts as empty. *)
Theorem degenerate_identity :
  forall (row : Row.t),
    degenerate (_build_event_key row)
    = is_empty (remove_char "|" (fst (fst (identity row))))
      && is_empty (remove_char "|" (snd (fst (identity row))))
      && is_empty (remove_char "|" (snd (identity row))).
Proof.
  intros row. rewrite build_event_key_identity.
  destruct (identity row) as [[h g] c]. cbn [fst snd key_of].
  unfold degenerate.
  rewrite !remove_char_app, !is_empty_app. cbn [remove_char Ascii.eqb].
  cbn. now rewrite andb_assoc.
Qed.

(** *** When a call raises *)




(** *** Row ids *)

Lemma fold_max_bound (l : list Z) (b : Z) :
  (forall x, In x l -> x <= b) -> fold_right Z.max b l = b.
Proof.
  induction l as [|x l IH]; intros H; [reflexivity|].
  cbn [fold_right]. rewrite IH by (intros y Hy; apply H; now right).
  specialize (H x (or_introl eq_refl)). lia.
Qed.

Lemma max_of_seq n :
  fold_right Z.max 0 (map Z.of_nat (seq 1 n)) = Z.of_nat n.
Proof.
  destruct n as [|n]; [reflexivity|].
  rewrite seq_S, map_app, fold_right_app. cbn [map fold_right].
  rewrite fold_max_bound; [lia|].
  intros x Hx. apply in_map_iff in Hx as (k & <- & Hk).
  apply in_seq in Hk. lia.
Qed.

Lemma numbered_next_id db :
  numbered db -> next_id db = Z.of_nat (S (List.length db)).
Proof.
  unfold numbered, next_id. intros ->. rewrite max_of_seq. lia.
Qed.

Lemma numbered_NoDup db : numbered db -> NoDup (ids db).
Proof.
  unfold numbered. intros ->.
  apply Finite.Injective_map_NoDup; [|apply seq_NoDup].
  intros x y. apply Nat2Z.inj.
Qed.

Lemma log_quietly_numbered db c :
  numbered db -> numbered (log_quietly db c).
Proof.
  intros H.
  destruct (log_quietly_cases db c)
    as [-> | [[-> _] | (m & t & _ & _ & _ & _ & -> & _)]].
  - exact H.
  - unfold numbered. rewrite ids_insert, length_app. cbn [List.length].
    rewrite Nat.add_1_r, seq_S, map_app. cbn [map new_event Flight.id].
    rewrite (numbered_next_id db H). now rewrite <- H.
  - unfold numbered. rewrite ids_update_where_id.
    unfold update_where_id. now rewrite length_map.
Qed.

Lemma log_quietly_length db c :
  List.length (log_quietly db c) = List.length db
  \/ List.length (log_quietly db c) = S (List.length db).
Proof.
  destruct (log_quietly_cases db c)
    as [-> | [[-> _] | (m & t & _ & _ & _ & _ & -> & _)]].
  - now left.
  - right. rewrite length_app. cbn. lia.
  - left. unfold update_where_id. now rewrite length_map.
Qed.

(** X4.  The logger never deletes a row and never reuses or skips an id:
    a table it builds from the empty one holds at most one row per call,
    with the ids 1, 2, 3, ... in row order. *)
Theorem ids_are_consecutive :
  forall (calls : list call),
    ids (run calls []) = map Z.of_nat (seq 1 (List.length (run calls [])))
    /\ (List.length (run calls []) <= List.length calls)%nat.
Proof.
  intros calls.
  assert (forall db, numbered db ->
            numbered (run calls db)
            /\ (List.length db <= List.length (run calls db)
                <= List.length db + List.length calls)%nat) as G.
  { induction calls as [|c calls IH]; intros db H; [cbn; split; [exact H|lia]|].
    rewrite run_cons.
    destruct (IH _ (log_quietly_numbered db c H)) as [Hn Hl].
    split; [exact Hn|]. cbn [List.length].
    destruct (log_quietly_length db c) as [E | E]; rewrite E in Hl; lia. }
  destruct (G [] eq_refl) as [Hn Hl]. split; [exact Hn | cbn in Hl; lia].
Qed.

(** *** Every sighting logged is counted once *)

Lemma sum_times_seen_app a b :
  sum_times_seen (a ++ b) = sum_times_seen a + sum_times_seen b.
Proof.
  unfold sum_times_seen. induction a as [|f a IH]; cbn; [reflexivity|].
  cbn in IH. rewrite IH. lia.
Qed.

Lemma log_flight_sum now row db db' :
  NoDup (ids db) -> log_flight now row db = Done db' ->
  sum_times_seen db' = sum_times_seen db + 1.
Proof.
  intros Hnd H.
  destruct (log_flight_done _ _ _ _ Hnd H)
    as [-> | (pre & m & post & -> & -> & _)].
  - rewrite sum_times_seen_app. reflexivity.
  - rewrite !sum_times_seen_app.
    change (sum_times_seen (?x :: post))
      with (Flight.times_seen x + sum_times_seen post).
    cbn [update_event Flight.times_seen].
    change (sum_times_seen (m :: post))
      with (Flight.times_seen m + sum_times_seen post). lia.
Qed.

(** X5.  On a table with a primary key, the sum of [times_seen] grows by
    one with every call that returns and stays as it is when a call
    raises: after any calls it has grown by the number of calls that
    returned. *)
Theorem sightings_are_counted_once :
  forall (calls : list call) (db : table),
    NoDup (ids db) ->
    sum_times_seen (run calls db) = sum_times_seen db + returns calls db.
Proof.
  induction calls as [|c calls IH]; intros db Hnd.
  { change (run [] db) with db. cbn [returns]. lia. }
  rewrite run_cons. cbn [returns].
  rewrite (IH _ (log_quietly_NoDup db c Hnd)).
  unfold log_quietly.
  destruct (log_flight (fst c) (snd c) db) as [db'|e] eqn:E; [|lia].
  rewrite (log_flight_sum _ _ _ _ Hnd E). lia.
Qed.

(** *** What a row keeps for life *)

Lemma same_event_refl m : same_event m m.
Proof. unfold same_event, kept. repeat split; auto; lia. Qed.

Lemma kept_trans a b c : kept a b -> kept b c -> kept a c.
Proof.
  unfold kept. intros H1 H2 Ha. specialize (H1 Ha). subst b. auto.
Qed.

Lemma same_event_trans a b c : same_event a b -> same_event b c -> same_event a c.
Proof.
  unfold same_event.
  intros (A1 & A2 & A3 & A4 & A5 & A6 & A7 & A8 & A9 & A10 & A11 & A12 & A13
          & A14 & A15 & A16 & A17 & A18)
         (B1 & B2 & B3 & B4 & B5 & B6 & B7 & B8 & B9 & B10 & B11 & B12 & B13
          & B14 & B15 & B16 & B17 & B18).
  repeat split; try congruence; try lia; eapply kept_trans; eassumption.
Qed.

Lemma kept_keep old new : kept old (COALESCE (NULLIF old "") new).
Proof. unfold kept. destruct old as [[|c s]|]; cbn; congruence. Qed.

Lemma same_event_update seen_at row m :
  same_event m (update_event seen_at row m).
Proof.
  unfold same_event. cbn [update_event Flight.id Flight.hex Flight.reg
    Flight.callsign Flight.type_code Flight.event_key Flight.first_seen
    Flight.times_seen Flight.model Flight.manufacturer Flight.country
    Flight.country_iso Flight.owner Flight.airline_name Flight.origin_iata
    Flight.origin_name Flight.dest_iata Flight.dest_name].
  repeat split; try reflexivity; try lia; apply kept_keep.
Qed.

(** The row a stored row has become after one call: itself, or its
    update. *)
Lemma successor_row db c m :
  NoDup (ids db) -> In m db ->
  exists m1, In m1 (log_quietly db c) /\ same_event m m1.
Proof.
  intros Hnd Hm. unfold log_quietly.
  destruct (log_flight (fst c) (snd c) db) as [db'|e] eqn:E.
  2:{ exists m. split; [assumption | apply same_event_refl]. }
  destruct (log_flight_done _ _ _ _ Hnd E)
    as [-> | (pre & m0 & post & -> & -> & _)].
  - exists m. split; [apply in_or_app; now left | apply same_event_refl].
  - apply in_app_or in Hm as [Hm | [<- | Hm]].
    + exists m. split; [apply in_or_app; now left | apply same_event_refl].
    + eexists. split; [apply in_elt | apply same_event_update].
    + exists m. split; [|apply same_event_refl].
      apply in_or_app. right. now right.
Qed.

(** X6.  Through any calls a stored event keeps its id, hex, registration,
    callsign, type code, event key and [first_seen]; each of the ten
    descriptive columns keeps its value once it is not empty; and
    [times_seen] never decreases. *)
Theorem stored_event_is_kept :
  forall (calls more : list call) (m m' : Flight.t),
    In m (run calls []) ->
    In m' (run (calls ++ more) []) ->
    Flight.id m' = Flight.id m ->
    same_event m m'.
Proof.
  intros calls more m m' Hm Hm' Hid. rewrite run_app in Hm'.
  assert (NoDup (ids (run calls []))) as Hnd by (apply run_NoDup; constructor).
  revert Hm Hm' Hnd. generalize (run calls []). clear calls.
  revert m Hid. induction more as [|c more IH]; intros m Hid db Hm Hm' Hnd.
  - assert (m' = m) as -> by (apply (same_id_same_row db); assumption).
    apply same_event_refl.
  - rewrite run_cons in Hm'.
    destruct (successor_row db c m Hnd Hm) as (m1 & Hm1 & Hs).
    apply (same_event_trans _ m1); [exact Hs|].
    apply (IH m1) with (t := log_quietly db c); try assumption.
    + destruct Hs as [E _]. congruence.
    + now apply log_quietly_NoDup.
Qed.

(** *** The stored key and the stored identity *)

(** X7.  In every table the logger builds, the [event_key] of a row is the
    key of the row's own hex, registration and callsign columns. *)
Theorem stored_key_is_key_of_columns :
  forall (calls : list call) (f : Flight.t),
    In f (run calls []) -> Flight.event_key f = key_of (stored_identity f).
Proof.
  intros calls.
  assert (forall db,
            (forall f, In f db ->
               Flight.event_key f = key_of (stored_identity f)) ->
            forall f, In f (run calls db) ->
              Flight.event_key f = key_of (stored_identity f)) as G.
  { induction calls as [|c calls IH]; intros db Hdb; [exact Hdb|].
    rewrite run_cons. apply IH.
    destruct (log_quietly_cases db c)
      as [-> | [[-> _] | (m & t & _ & _ & _ & _ & -> & _)]].
    - exact Hdb.
    - intros f Hf. apply in_app_or in Hf as [Hf | [<- | []]];
        [now apply Hdb | reflexivity].
    - intros f' Hf'.
      apply In_update_where_id_inv in Hf' as (f & Hf & [[_ ->] | [_ ->]]);
        [|now apply Hdb].
      exact (Hdb f Hf). }
  apply G. intros f [].
Qed.

(** *** A sighting logged twice *)



(** ** web_server.py: the recent flights and the event stream *)

(** *** ORDER BY id DESC LIMIT ? *)

Lemma insert_desc_In f l x : In x (insert_desc f l) <-> x = f \/ In x l.
Proof.
  induction l as [|g l IH]; cbn [insert_desc].
  - cbn. intuition.
  - destruct (Flight.id g <? Flight.id f); cbn [In]; [intuition|].
    rewrite IH. intuition.
Qed.

Lemma insert_desc_length f l :
  List.length (insert_desc f l) = S (List.length l).
Proof.
  induction l as [|g l IH]; cbn [insert_desc]; [reflexivity|].
  destruct (Flight.id g <? Flight.id f); cbn [List.length]; congruence.
Qed.

Lemma insert_desc_sorted f l :
  ~ In (Flight.id f) (ids l) ->
  StronglySorted newer l -> StronglySorted newer (insert_desc f l).
Proof.
  induction l as [|g l IH]; intros Hf Hs; cbn [insert_desc].
  - constructor; constructor.
  - apply StronglySorted_inv in Hs as [Hs Hg].
    destruct (Flight.id g <? Flight.id f) eqn:E.
    + apply Z.ltb_lt in E. constructor; [now constructor|].
      constructor; [exact E|].
      rewrite Forall_forall in Hg |- *. intros x Hx.
      specialize (Hg x Hx). unfold newer in *. lia.
    + apply Z.ltb_ge in E. constructor.
      * apply IH; [|exact Hs]. intros H. apply Hf. now right.
      * rewrite Forall_forall in Hg |- *. intros x Hx.
        apply insert_desc_In in Hx as [-> | Hx]; [|now apply Hg].
        unfold newer. assert (Flight.id f <> Flight.id g); [|lia].
        intros H. apply Hf. left. now symmetry.
Qed.

Lemma ORDER_BY_In l x : In x (ORDER_BY_id_DESC l) <-> In x l.
Proof.
  induction l as [|f l IH]; [reflexivity|].
  cbn [ORDER_BY_id_DESC fold_right]. rewrite insert_desc_In.
  fold (ORDER_BY_id_DESC l). rewrite IH. cbn. intuition.
Qed.

Lemma ORDER_BY_length l :
  List.length (ORDER_BY_id_DESC l) = List.length l.
Proof.
  induction l as [|f l IH]; [reflexivity|].
  cbn [ORDER_BY_id_DESC fold_right]. rewrite insert_desc_length.
  fold (ORDER_BY_id_DESC l). now rewrite IH.
Qed.

Lemma ORDER_BY_sorted l :
  NoDup (ids l) -> StronglySorted newer (ORDER_BY_id_DESC l).
Proof.
  induction l as [|f l IH]; intros Hnd; [constructor|].
  cbn [ORDER_BY_id_DESC fold_right]. fold (ORDER_BY_id_DESC l).
  change (ids (f :: l)) with (Flight.id f :: ids l) in Hnd.
  apply NoDup_cons_iff in Hnd as [Hf Hnd].
  apply insert_desc_sorted; [|now apply IH].
  intros H. apply Hf. unfold ids in *.
  apply in_map_iff in H as (x & Hx & Hin). apply in_map_iff.
  exists x. split; [exact Hx|]. now apply ORDER_BY_In.
Qed.

Lemma StronglySorted_app_inv {A : Type} (R : A -> A -> Prop) (a b : list A) :
  StronglySorted R (a ++ b) ->
  StronglySorted R a /\ forall x y, In x a -> In y b -> R x y.
Proof.
  induction a as [|f a IH]; intros H; cbn in *.
  - split; [constructor|]. intros x y [].
  - apply StronglySorted_inv in H as [H Hf].
    destruct (IH H) as [Ha Hab]. split.
    + constructor; [exact Ha|]. rewrite Forall_forall in Hf |- *.
      intros x Hx. apply Hf. apply in_or_app. now left.
    + intros x y [<- | Hx] Hy; [|now apply Hab].
      rewrite Forall_forall in Hf. apply Hf. apply in_or_app. now right.
Qed.

(** X9.  On a table with a primary key and for a limit SQLite can bind,
    [get_recent_flights] returns rows of the table by strictly decreasing
    id, as many as the limit allows (all of them when the limit is
    negative), and every row it leaves out has a smaller id than every row
    it returns. *)
Theorem recent_flights_are_the_newest :
  forall (limit : Z) (db : table),
    NoDup (ids db) ->
    sqlite_integer limit = true ->
    exists rows,
      get_recent_flights limit db = inl rows
      /\ StronglySorted (fun f g => Flight.id g < Flight.id f) rows
      /\ (forall f, In f rows -> In f db)
      /\ List.length rows
         = (if limit <? 0 then List.length db
            else Nat.min (Z.to_nat limit) (List.length db))
      /\ (forall f g, In f rows -> In g db -> ~ In g rows ->
            Flight.id g < Flight.id f).
Proof.
  intros limit db Hnd Hl. unfold get_recent_flights. rewrite Hl.
  eexists. split; [reflexivity|].
  pose proof (ORDER_BY_sorted db Hnd) as Hs.
  unfold LIMIT. destruct (limit <? 0).
  - split; [exact Hs|]. split; [intros f; apply ORDER_BY_In|].
    split; [apply ORDER_BY_length|].
    intros f g _ Hg Hn. exfalso. apply Hn. now apply ORDER_BY_In.
  - rewrite <- (firstn_skipn (Z.to_nat limit) (ORDER_BY_id_DESC db)) in Hs.
    apply StronglySorted_app_inv in Hs as [Hs Hab].
    split; [exact Hs|]. split.
    { intros f Hf. apply ORDER_BY_In.
      rewrite <- (firstn_skipn (Z.to_nat limit) (ORDER_BY_id_DESC db)).
      apply in_or_app. now left. }
    split; [now rewrite length_firstn, ORDER_BY_length|].
    intros f g Hf Hg Hn. apply (Hab f g Hf).
    apply ORDER_BY_In in Hg.
    rewrite <- (firstn_skipn (Z.to_nat limit) (ORDER_BY_id_DESC db)) in Hg.
    apply in_app_or in Hg as [Hg | Hg]; [contradiction | exact Hg].
Qed.

(** *** The tables the logger builds, newest first *)

Lemma insert_desc_last f l :
  (forall g, In g l -> Flight.id f < Flight.id g) ->
  insert_desc f l = l ++ [f].
Proof.
  induction l as [|g l IH]; intros H; [reflexivity|].
  cbn [insert_desc].
  assert ((Flight.id g <? Flight.id f) = false) as ->.
  { apply Z.ltb_ge. specialize (H g (or_introl eq_refl)). lia. }
  rewrite IH; [reflexivity|]. intros x Hx. apply H. now right.
Qed.

Lemma ORDER_BY_ascending l :
  StronglySorted Z.lt (ids l) -> ORDER_BY_id_DESC l = rev l.
Proof.
  induction l as [|f l IH]; intros H; [reflexivity|].
  change (ids (f :: l)) with (Flight.id f :: ids l) in H.
  apply StronglySorted_inv in H as [H Hf].
  cbn [ORDER_BY_id_DESC fold_right rev]. fold (ORDER_BY_id_DESC l).
  rewrite IH by exact H. apply insert_desc_last.
  intros g Hg. apply in_rev in Hg. rewrite Forall_forall in Hf.
  apply Hf. unfold ids. now apply in_map.
Qed.

Lemma seq_ascending n a :
  StronglySorted Z.lt (map Z.of_nat (seq a n)).
Proof.
  revert a. induction n as [|n IH]; intros a; [constructor|].
  cbn [seq map]. constructor; [apply IH|].
  apply Forall_forall. intros x Hx.
  apply in_map_iff in Hx as (k & <- & Hk). apply in_seq in Hk. lia.
Qed.

Lemma numbered_ascending db : numbered db -> StronglySorted Z.lt (ids db).
Proof. unfold numbered. intros ->. apply seq_ascending. Qed.

Lemma run_numbered calls db : numbered db -> numbered (run calls db).
Proof.
  revert db. induction calls as [|c calls IH]; intros db H; [exact H|].
  rewrite run_cons. apply IH. now apply log_quietly_numbered.
Qed.

Lemma numbered_nil : numbered [].
Proof. reflexivity. Qed.

(** X10.  On every table the logger builds, [get_recent_flights] returns
    the rows in the reverse of the order in which the events were opened,
    cut at the limit: a sighting that coalesces into an older event does
    not move that event up. *)
Theorem recent_flights_newest_first :
  forall (limit : Z) (calls : list call),
    sqlite_integer limit = true ->
    get_recent_flights limit (run calls [])
    = inl (LIMIT limit (rev (run calls []))).
Proof.
  intros limit calls Hl. unfold get_recent_flights. rewrite Hl.
  rewrite ORDER_BY_ascending; [reflexivity|].
  apply numbered_ascending, run_numbered, numbered_nil.
Qed.

(** *** The event stream *)

Lemma last_map_Some (l : list Flight.t) :
  l <> [] -> exists r, last (map Some l) None = Some r /\ In r l.
Proof.
  induction l as [|r l _] using rev_ind; [congruence|]. intros _.
  exists r. rewrite map_app. cbn [map]. rewrite last_last.
  split; [reflexivity | apply in_elt].
Qed.

Lemma last_by_id_ascending db :
  StronglySorted Z.lt (ids db) -> last_by_id db = last (map Some db) None.
Proof.
  induction db as [|f db IH]; intros H; [reflexivity|].
  change (ids (f :: db)) with (Flight.id f :: ids db) in H.
  apply StronglySorted_inv in H as [H Hf].
  cbn [last_by_id]. rewrite IH by exact H.
  destruct db as [|g db]; [reflexivity|].
  change (map Some (f :: g :: db)) with (Some f :: map Some (g :: db)).
  change (last (Some f :: map Some (g :: db)) None)
    with (last (map Some (g :: db)) None).
  destruct (last_map_Some (g :: db)) as (r & -> & Hr); [congruence|].
  rewrite Forall_forall in Hf.
  assert (Flight.id f < Flight.id r) as Hlt
    by (apply Hf; unfold ids; now apply in_map).
  apply Z.ltb_lt in Hlt. now rewrite Hlt.
Qed.

Lemma numbered_last db r :
  numbered (db ++ [r]) -> Flight.id r = Z.of_nat (S (List.length db)).
Proof.
  unfold numbered, ids. rewrite map_app, length_app. cbn [map List.length].
  rewrite Nat.add_1_r, seq_S, map_app. cbn [map]. intros H.
  apply app_inj_tail in H as [_ H]. rewrite H. reflexivity.
Qed.

Lemma sse_turn_numbered db db' :
  numbered db' -> (List.length db <= List.length db')%nat ->
  sse_turn (seen_up_to db) db'
  = (seen_up_to db',
     if (List.length db <? List.length db')%nat
     then last (map Some db') None else None).
Proof.
  intros Hn Hle. unfold sse_turn.
  rewrite last_by_id_ascending by now apply numbered_ascending.
  induction db' as [|r db0 _] using rev_ind.
  - destruct db; [reflexivity | cbn in Hle; lia].
  - apply numbered_last in Hn. rewrite map_app. cbn [map].
    rewrite last_last. cbv zeta. rewrite Hn.
    rewrite length_app in *. cbn [List.length] in *.
    rewrite Nat.add_1_r in *.
    assert (seen_up_to (db0 ++ [r]) = Some (Z.of_nat (S (List.length db0))))
      as ->.
    { unfold seen_up_to. rewrite length_app, Nat.add_1_r.
      now destruct db0. }
    destruct db as [|f db]; [reflexivity|].
    cbn [seen_up_to]. set (n := List.length (f :: db)) in *.
    destruct (n <? S (List.length db0))%nat eqn:E.
    + apply Nat.ltb_lt in E.
      assert ((Z.of_nat (S (List.length db0)) =? Z.of_nat n) = false) as ->
        by (apply Z.eqb_neq; lia).
      reflexivity.
    + apply Nat.ltb_ge in E.
      assert (n = S (List.length db0)) as -> by lia.
      now rewrite Z.eqb_refl.
Qed.

Lemma run_length_le calls db :
  (List.length db <= List.length (run calls db))%nat.
Proof.
  revert db. induction calls as [|c calls IH]; intros db; [cbn; lia|].
  rewrite run_cons. specialize (IH (log_quietly db c)).
  destruct (log_quietly_length db c); lia.
Qed.

Lemma gen_numbered batches db :
  numbered db ->
  gen (seen_up_to db) (polled batches db) = new_events db (polled batches db).
Proof.
  revert db. induction batches as [|calls batches IH]; intros db Hn;
    [reflexivity|].
  cbn [polled gen new_events].
  rewrite sse_turn_numbered
    by (try apply run_numbered; try apply run_length_le; assumption).
  f_equal. apply IH. now apply run_numbered.
Qed.

(** X11.  While the logger runs, the stream pushes at a poll exactly when
    an event has been opened since the poll before, and what it pushes is
    the newest event; sightings that only coalesce into stored events are
    never pushed. *)
Theorem stream_pushes_new_events :
  forall (batches : list (list call)),
    gen None (polled batches []) = new_events [] (polled batches []).
Proof.
  intros batches. apply (gen_numbered batches []). apply numbered_nil.
Qed.

(** ** web_server.py: the cached ADSBdb lookup and the military feed *)

(** *** The cache of ADSBdb lookups *)

Lemma dict_get_set_same k v d : dict_get k (dict_set k v d) = Some v.
Proof.
  induction d as [|[k' v'] d IH]; cbn [dict_set dict_get].
  - now rewrite String.eqb_refl.
  - destruct (String.eqb k' k) eqn:E; cbn [dict_get]; now rewrite E.
Qed.

Lemma dict_get_set_other k k' v d :
  k' <> k -> dict_get k' (dict_set k v d) = dict_get k' d.
Proof.
  intros Hk. induction d as [|[k0 v0] d IH]; cbn [dict_set dict_get].
  - apply String.eqb_neq in Hk. rewrite String.eqb_sym in Hk. now rewrite Hk.
  - destruct (String.eqb k0 k) eqn:E; cbn [dict_get].
    + apply String.eqb_eq in E. subst k0.
      assert (String.eqb k k' = false) as ->; [|reflexivity].
      apply String.eqb_neq. congruence.
    + now rewrite IH.
Qed.

Lemma is_empty_false s : is_empty s = false <-> s <> "".
Proof. destruct s; cbn; split; congruence. Qed.

(** X12.  A lookup that ADSBdb answered and that was saved is remembered:
    every later request for the same hex code, in any letter case and with
    any blanks around it, gets the same answer from the file, without the
    network, and leaves the file as it is.  An answer that the aircraft
    is unknown is remembered in the same way. *)
Theorem mil_lookup_is_remembered :
  forall (h h' : option string) (file file' : cache_file)
         (ac : option Adsbdb.t) (d : details) (net : answer) (disk_ok : bool),
    upper (strip (or_else h "")) <> "" ->
    get_mil_aircraft_details h file (Answered ac) true = (d, file') ->
    upper (strip (or_else h' "")) = upper (strip (or_else h "")) ->
    get_mil_aircraft_details h' file' net disk_ok = (d, file').
Proof.
  intros h h' file file' ac d net disk_ok Hne H1 Hh.
  unfold get_mil_aircraft_details in *. cbv zeta in *. rewrite Hh.
  apply is_empty_false in Hne. rewrite Hne in *.
  destruct (dict_get _ (load_mil_cache file)) as [entry|] eqn:E.
  - injection H1 as <- <-. now rewrite E.
  - cbn [save_mil_cache] in H1. injection H1 as <- <-.
    cbn [load_mil_cache]. now rewrite dict_get_set_same.
Qed.

(** X13.  A call never changes or removes an entry of the cache file, and
    adds none but the one of the hex code asked for; when it answers
    [no_hex] or [lookup_failed] the file is as it was. *)
Theorem mil_cache_only_grows :
  forall (h : option string) (file file' : cache_file) (net : answer)
         (disk_ok : bool) (d : details),
    get_mil_aircraft_details h file net disk_ok = (d, file') ->
    (forall k v, dict_get k (load_mil_cache file) = Some v ->
                 dict_get k (load_mil_cache file') = Some v)
    /\ (forall k, k <> upper (strip (or_else h "")) ->
                  dict_get k (load_mil_cache file')
                  = dict_get k (load_mil_cache file))
    /\ (d = no_hex \/ (exists x, d = lookup_failed x) -> file' = file).
Proof.
  intros h file file' net disk_ok d.
  unfold get_mil_aircraft_details. cbv zeta.
  set (hex_code := upper (strip (or_else h ""))).
  destruct (is_empty hex_code); [intros [= <- <-]; auto|].
  destruct (dict_get hex_code (load_mil_cache file)) as [entry|] eqn:E;
    [intros [= <- <-]; auto|].
  destruct net as [|ac]; [intros [= <- <-]; auto|].
  destruct disk_ok; cbn [save_mil_cache]; [|intros [= <- <-]; auto].
  intros [= <- <-]. cbn [load_mil_cache]. repeat split.
  - intros k v Hk. rewrite dict_get_set_other; [exact Hk|]. congruence.
  - intros k Hk. now apply dict_get_set_other.
  - intros [H | [x H]]; destruct ac; discriminate.
Qed.

(** X14.  The answer does not depend on whether the cache file can be
    written: when the disk fails, the caller still gets what ADSBdb
    answered. *)
Theorem mil_answer_survives_disk_failure :
  forall (h : option string) (file : cache_file) (net : answer),
    fst (get_mil_aircraft_details h file net false)
    = fst (get_mil_aircraft_details h file net true).
Proof.
  intros h file net. unfold get_mil_aircraft_details. cbv zeta.
  destruct (is_empty _); [reflexivity|].
  destruct (dict_get _ (load_mil_cache file)); [reflexivity|].
  destruct net as [|ac]; [reflexivity|].
  cbn [save_mil_cache fst]. now rewrite dict_get_set_same.
Qed.

(** *** Python's [<] on the sort keys *)

Lemma Qle_bool_trans x y z :
  QArith_base.Qle_bool x y = true -> QArith_base.Qle_bool y z = true ->
  QArith_base.Qle_bool x z = true.
Proof.
  rewrite !QArith_base.Qle_bool_iff. apply QArith_base.Qle_trans.
Qed.

Lemma Qle_bool_total x y :
  QArith_base.Qle_bool x y = false -> QArith_base.Qle_bool y x = true.
Proof.
  intros H. apply QArith_base.Qle_bool_iff, QArith_base.Qlt_le_weak,
    QArith_base.Qnot_le_lt.
  intros H'. apply QArith_base.Qle_bool_iff in H'. congruence.
Qed.

Lemma py_lt_text x y :
  is_text x = true -> is_text y = true -> exists b, py_lt x y = Some b.
Proof. destruct x, y; try discriminate. cbn. eauto. Qed.

Lemma py_lt_number x y :
  is_number x = true -> is_number y = true -> exists b, py_lt x y = Some b.
Proof.
  destruct x as [|b|p|s], y as [|b'|q|s']; try discriminate; cbn; eauto.
Qed.

Lemma py_lt_mixed x y :
  is_text x = true -> is_number y = true ->
  py_lt x y = None /\ py_lt y x = None.
Proof.
  destruct x, y; try discriminate; cbn; auto.
Qed.

Lemma py_lt_some x y b :
  py_lt x y = Some b ->
  (is_text x = true /\ is_text y = true)
  \/ (is_number x = true /\ is_number y = true).
Proof.
  destruct x as [|bx|p|s], y as [|by'|q|s']; cbn; try discriminate; auto.
Qed.

Lemma py_lt_asym x y : py_lt x y = Some true -> py_lt y x = Some false.
Proof.
  destruct x as [|bx|p|s], y as [|by'|q|s']; cbn; try discriminate;
    intros [= H]; f_equal;
    try (now apply sql_lt_asym);
    apply negb_true_iff in H; apply Qle_bool_total in H; now rewrite H.
Qed.

Lemma py_not_lt_trans x y z :
  py_lt x y = Some false -> py_lt y z = Some false -> py_lt x z = Some false.
Proof.
  destruct x as [|bx|p|s], y as [|by'|q|s'], z as [|bz|r|s'']; cbn;
    try discriminate; intros [= H1] [= H2]; f_equal;
    try (now apply (sql_not_lt_trans _ _ _ H1 H2));
    apply negb_false_iff in H1, H2; apply negb_false_iff;
    eapply Qle_bool_trans; eassumption.
Qed.

Lemma sort_key_kind a :
  is_text (sort_key a) = negb (is_number (sort_key a))
  /\ is_text (sort_key a) = text_altitude (Mil.alt_baro a).
Proof.
  unfold sort_key, or_.
  destruct (Mil.alt_baro a) as [|b|q|s]; cbn; auto.
  - destruct b; auto.
  - destruct (QArith_base.Qeq_bool q _); auto.
  - destruct s; auto.
Qed.

(** *** The loop that simplifies *)

Lemma simplified_some acs l :
  simplified acs = Some l -> map simplify acs = map Some l.
Proof.
  revert l. induction acs as [|ac acs IH]; intros l; cbn [simplified].
  - now intros [= <-].
  - destruct (simplify ac) as [m|] eqn:E; [|discriminate].
    destruct (simplified acs) as [l'|]; [|discriminate].
    intros [= <-]. cbn [map]. now rewrite E, (IH l').
Qed.

Lemma simplified_none acs :
  simplified acs = None <->
  exists ac, In ac acs /\ stripped (Ac.flight ac) = None.
Proof.
  induction acs as [|ac acs IH]; cbn [simplified].
  - split; [discriminate | intros (ac & [] & _)].
  - unfold simplify at 1.
    destruct (stripped (Ac.flight ac)) as [f|] eqn:E.
    + destruct (simplified acs) as [l|]; cbn [option_map].
      * split; [discriminate|]. intros (x & [<- | Hx] & Hs); [congruence|].
        apply proj2 in IH. discriminate IH. eauto.
      * split; [|reflexivity]. intros _.
        destruct (proj1 IH eq_refl) as (x & Hx & Hs).
        exists x. split; [now right | exact Hs].
    + split; [|reflexivity]. intros _. exists ac. split; [now left | exact E].
Qed.

Lemma simplify_alt ac m : simplify ac = Some m -> Mil.alt_baro m = Ac.alt_baro ac.
Proof.
  unfold simplify. destruct (stripped _); [|discriminate]. now intros [= <-].
Qed.

(** *** The sort *)

Lemma insert_sorted_some a l :
  (forall b, In b l -> is_text (sort_key b) = is_text (sort_key a)) ->
  exists pre post,
    l = pre ++ post
    /\ insert_sorted a l = Some (pre ++ a :: post)
    /\ (forall b, In b pre -> py_lt (sort_key a) (sort_key b) = Some true)
    /\ match post with
       | [] => True
       | b :: _ => py_lt (sort_key a) (sort_key b) = Some false
       end.
Proof.
  induction l as [|b l IH]; intros Hk.
  - exists [], []. cbn. repeat split. intros b [].
  - cbn [insert_sorted].
    assert (exists r, py_lt (sort_key a) (sort_key b) = Some r) as [r Hr].
    { specialize (Hk b (or_introl eq_refl)).
      destruct (is_text (sort_key a)) eqn:Ea.
      - now apply py_lt_text.
      - apply py_lt_number.
        + destruct (sort_key_kind a) as [Ha _]. rewrite Ea in Ha.
          now destruct (is_number (sort_key a)).
        + destruct (sort_key_kind b) as [Hb _]. rewrite Hk in Hb.
          now destruct (is_number (sort_key b)). }
    rewrite Hr. destruct r.
    + destruct IH as (pre & post & -> & -> & Hpre & Hpost).
      { intros x Hx. apply Hk. now right. }
      exists (b :: pre), post. cbn [option_map app]. repeat split; auto.
      intros x [<- | Hx]; auto.
    + exists [], (b :: l). cbn. repeat split; auto. intros x [].
Qed.

Lemma insert_sorted_none a l :
  insert_sorted a l = None ->
  exists b, In b l /\ is_text (sort_key b) <> is_text (sort_key a).
Proof.
  induction l as [|b l IH]; cbn [insert_sorted]; [discriminate|].
  destruct (py_lt (sort_key a) (sort_key b)) as [[|]|] eqn:E.
  - destruct (insert_sorted a l); [discriminate|]. intros _.
    destruct (IH eq_refl) as (x & Hx & Hn). exists x. split; [now right|auto].
  - discriminate.
  - intros _. exists b. split; [now left|]. intros Hk.
    destruct (is_text (sort_key a)) eqn:Ea.
    + destruct (py_lt_text _ _ Ea Hk). congruence.
    + destruct (sort_key_kind a) as [Ha _], (sort_key_kind b) as [Hb _].
      rewrite Ea in Ha. rewrite Hk in Hb.
      destruct (py_lt_number (sort_key a) (sort_key b)).
      * now destruct (is_number (sort_key a)).
      * now destruct (is_number (sort_key b)).
      * congruence.
Qed.

Lemma all_one_kind (l : list Mil.t) :
  (forall a b, In a l -> In b l ->
     is_text (sort_key a) = is_text (sort_key b))
  \/ (exists a b, In a l /\ In b l
        /\ is_text (sort_key a) = true /\ is_text (sort_key b) = false).
Proof.
  induction l as [|x l [IH | (a & b & Ha & Hb & Hk)]].
  - left. intros a b [].
  - destruct l as [|y l].
    { left. intros a b [<- | []] [<- | []]. reflexivity. }
    destruct (Bool.bool_dec (is_text (sort_key x)) (is_text (sort_key y)))
      as [E | E].
    + left. intros a b [<- | Ha] [<- | Hb]; auto.
      * rewrite E. apply IH; [now left | exact Hb].
      * rewrite E. apply IH; [exact Ha | now left].
    + right. destruct (is_text (sort_key x)) eqn:Ex.
      * exists x, y. split; [now left|]. split; [right; now left|].
        split; [exact Ex|]. now destruct (is_text (sort_key y)).
      * exists y, x. split; [right; now left|]. split; [now left|].
        split; [|exact Ex]. now destruct (is_text (sort_key y)).
  - right. exists a, b. split; [now right|]. split; [now right | exact Hk].
Qed.

Lemma sort_reverse_spec l :
  (forall a b, In a l -> In b l ->
     is_text (sort_key a) = is_text (sort_key b)) ->
  exists sorted,
    sort_reverse l = Some sorted
    /\ Permutation l sorted
    /\ StronglySorted not_below sorted
    /\ forall a0, filter (same_key a0) sorted = filter (same_key a0) l.
Proof.
  induction l as [|a l IH]; intros Hk.
  - exists []. repeat split; constructor.
  - destruct IH as (s & Hs & Hp & Hsorted & Hstable).
    { intros x y Hx Hy. apply Hk; now right. }
    cbn [sort_reverse]. rewrite Hs.
    destruct (insert_sorted_some a s) as (pre & post & -> & -> & Hpre & Hpost).
    { intros b Hb. apply Hk; [right | now left].
      apply (Permutation_in _ (Permutation_sym Hp) Hb). }
    eexists. split; [reflexivity|]. split; [|split].
    + now apply Permutation_cons_app.
    + (* every element of [pre] is above [a], [a] is not below [post] *)
      assert (forall b, In b post -> not_below a b) as Hab.
      { destruct post as [|b post]; [intros b []|].
        intros x [<- | Hx]; [exact Hpost|].
        assert (StronglySorted not_below (b :: post)) as Hbp.
        { clear - Hsorted. induction pre as [|p pre IH]; [exact Hsorted|].
          apply IH. now apply StronglySorted_inv in Hsorted. }
        apply StronglySorted_inv in Hbp as [_ Hb].
        rewrite Forall_forall in Hb. unfold not_below in *.
        eapply py_not_lt_trans; [exact Hpost | now apply Hb]. }
      clear Hpost Hstable Hp Hs Hk.
      induction pre as [|p pre IHp]; cbn [app] in *.
      * constructor; [exact Hsorted|]. now apply Forall_forall.
      * apply StronglySorted_inv in Hsorted as [Hsorted Hp].
        constructor.
        { apply IHp; [exact Hsorted|]. intros b Hb. apply Hpre. now right. }
        rewrite Forall_forall in Hp |- *. intros x Hx.
        apply in_app_or in Hx as [Hx | [<- | Hx]].
        -- apply Hp. apply in_or_app. now left.
        -- apply py_lt_asym. apply Hpre. now left.
        -- apply Hp. apply in_or_app. now right.
    + intros a0. cbn [filter]. rewrite <- Hstable.
      rewrite !filter_app. cbn [filter].
      destruct (same_key a0 a) eqn:Ea0; [|reflexivity].
      assert (filter (same_key a0) pre = []) as ->; [|reflexivity].
      clear - Hpre Ea0. induction pre as [|p pre IH]; [reflexivity|].
      cbn [filter]. rewrite IH by (intros b Hb; apply Hpre; now right).
      destruct (same_key a0 p) eqn:Ep; [|reflexivity]. exfalso.
      specialize (Hpre p (or_introl eq_refl)).
      unfold same_key in *.
      destruct (py_lt (sort_key a0) (sort_key a)) as [[|]|] eqn:E1;
        try discriminate.
      destruct (py_lt (sort_key a) (sort_key a0)) as [[|]|] eqn:E2;
        try discriminate.
      destruct (py_lt (sort_key a0) (sort_key p)) as [[|]|] eqn:E3;
        try discriminate.
      destruct (py_lt (sort_key p) (sort_key a0)) as [[|]|] eqn:E4;
        try discriminate.
      pose proof (py_not_lt_trans _ _ _ E2 E3). congruence.
Qed.

Lemma sort_reverse_none l :
  sort_reverse l = None ->
  exists a b, In a l /\ In b l
    /\ is_text (sort_key a) = true /\ is_text (sort_key b) = false.
Proof.
  intros H. destruct (all_one_kind l) as [Hk | Hm]; [|exact Hm].
  destruct (sort_reverse_spec l Hk) as (s & Hs & _). congruence.
Qed.

Lemma insert_sorted_perm a l s :
  insert_sorted a l = Some s -> Permutation (a :: l) s.
Proof.
  revert s. induction l as [|b l IH]; intros s; cbn [insert_sorted].
  - now intros [= <-].
  - destruct (py_lt (sort_key a) (sort_key b)) as [[|]|]; [| |discriminate].
    + destruct (insert_sorted a l) as [s'|]; [|discriminate].
      intros [= <-]. rewrite perm_swap. constructor. now apply IH.
    + now intros [= <-].
Qed.

Lemma sort_reverse_some l s :
  sort_reverse l = Some s ->
  Permutation l s
  /\ forall a b, In a l -> In b l ->
       is_text (sort_key a) = is_text (sort_key b).
Proof.
  revert s. induction l as [|x l IH]; intros s; cbn [sort_reverse].
  - intros [= <-]. split; [constructor | intros a b []].
  - destruct (sort_reverse l) as [s'|]; [|discriminate]. intros H.
    destruct (IH s' eq_refl) as [Hp Hk]. split.
    + rewrite <- (insert_sorted_perm _ _ _ H). now constructor.
    + assert (forall y, In y l -> is_text (sort_key y) = is_text (sort_key x))
        as Hx.
      { destruct s' as [|b s'].
        - apply Permutation_sym, Permutation_nil in Hp. subst l.
          intros y [].
        - intros y Hy. cbn [insert_sorted] in H.
          assert (In b l) as Hb
            by (apply (Permutation_in _ (Permutation_sym Hp)); now left).
          rewrite (Hk y b Hy Hb).
          destruct (py_lt (sort_key x) (sort_key b)) as [r|] eqn:E;
            [|discriminate].
          apply py_lt_some in E as [[-> ->] | [E1 E2]]; [reflexivity|].
          destruct (sort_key_kind x) as [-> _], (sort_key_kind b) as [-> _].
          now rewrite E1, E2. }
      intros a b [<- | Ha] [<- | Hb]; auto. symmetry. auto.
Qed.

Lemma sort_reverse_mixed l a b :
  In a l -> In b l ->
  is_text (sort_key a) = true -> is_text (sort_key b) = false ->
  sort_reverse l = None.
Proof.
  intros Ha Hb Ka Kb.
  destruct (sort_reverse l) as [s|] eqn:E; [exfalso | reflexivity].
  apply sort_reverse_some in E as [_ Hk].
  specialize (Hk a b Ha Hb). congruence.
Qed.

Lemma map_Some_In {A B : Type} (f : A -> option B) (xs : list A) (l : list B) :
  map f xs = map Some l ->
  (forall m, In m l -> exists x, In x xs /\ f x = Some m)
  /\ (forall x, In x xs -> exists m, In m l /\ f x = Some m).
Proof.
  revert l. induction xs as [|x xs IH]; intros [|m l]; try discriminate.
  - intros _. split; intros ? [].
  - cbn [map]. intros [= Hx H]. destruct (IH l H) as [IH1 IH2]. split.
    + intros m' [<- | Hm]; [exists x; split; [now left | exact Hx]|].
      destruct (IH1 m' Hm) as (y & Hy & E). exists y. split; [now right|exact E].
    + intros y [<- | Hy]; [exists m; split; [now left | exact Hx]|].
      destruct (IH2 y Hy) as (m' & Hm & E). exists m'. split; [now right|exact E].
Qed.

(** X15.  [/api/mil] answers 502 [mil_fetch_failed] for a frame that was
    fetched exactly when some aircraft's [flight] is a truthy value that
    is not text, or the frame holds both an aircraft whose altitude is a
    text (["ground"]) and one whose altitude is a number or missing: the
    sort then compares a text with a number. *)
Theorem api_mil_fails_on_mixed_altitudes :
  forall (acs : list Ac.t),
    api_mil (Frame acs) = mil_fetch_failed <->
    (exists ac, In ac acs /\ stripped (Ac.flight ac) = None)
    \/ (exists a b, In a acs /\ In b acs
          /\ text_altitude (Ac.alt_baro a) = true
          /\ text_altitude (Ac.alt_baro b) = false).
Proof.
  intros acs. unfold api_mil.
  destruct (simplified acs) as [l|] eqn:El.
  2:{ split; [|reflexivity]. intros _. left. now apply simplified_none. }
  assert (~ exists ac, In ac acs /\ stripped (Ac.flight ac) = None) as Hno.
  { intros H. apply simplified_none in H. congruence. }
  apply simplified_some, map_Some_In in El as [Hl1 Hl2].
  destruct (sort_reverse l) as [s|] eqn:Es; split.
  - discriminate.
  - intros [H | (a & b & Ha & Hb & Ka & Kb)]; [contradiction|]. exfalso.
    destruct (Hl2 a Ha) as (ma & Hma & Ea), (Hl2 b Hb) as (mb & Hmb & Eb).
    apply simplify_alt in Ea, Eb.
    rewrite (sort_reverse_mixed l ma mb Hma Hmb) in Es; [discriminate| |].
    + destruct (sort_key_kind ma) as [_ ->]. now rewrite Ea.
    + destruct (sort_key_kind mb) as [_ ->]. now rewrite Eb.
  - intros _. right.
    apply sort_reverse_none in Es as (ma & mb & Hma & Hmb & Ka & Kb).
    destruct (Hl1 ma Hma) as (a & Ha & Ea), (Hl1 mb Hmb) as (b & Hb & Eb).
    apply simplify_alt in Ea, Eb. exists a, b.
    split; [exact Ha|]. split; [exact Hb|].
    destruct (sort_key_kind ma) as [_ Ha'], (sort_key_kind mb) as [_ Hb'].
    rewrite <- Ea, <- Eb. split; congruence.
  - reflexivity.
Qed.

(** X16.  When [/api/mil] answers with a list, the list holds the
    simplified aircraft of the frame, all of them and no other, [count]
    is their number, no aircraft stands before one with a greater
    altitude (a missing altitude counting as 0), and aircraft with equal
    altitudes stand in the order of the frame. *)
Theorem api_mil_sorted_by_altitude :
  forall (acs : list Ac.t) (count : Z) (aircraft : list Mil.t),
    api_mil (Frame acs) = mil_ok count aircraft ->
    exists l,
      map simplify acs = map Some l
      /\ Permutation l aircraft
      /\ count = Z.of_nat (List.length acs)
      /\ StronglySorted not_below aircraft
      /\ forall a0, filter (same_key a0) aircraft = filter (same_key a0) l.
Proof.
  intros acs count aircraft. unfold api_mil.
  destruct (simplified acs) as [l|] eqn:El; [|discriminate].
  destruct (sort_reverse l) as [s|] eqn:Es; [|discriminate].
  intros [= <- <-]. exists l.
  apply simplified_some in El.
  destruct (sort_reverse_some l s Es) as [Hp Hk].
  destruct (sort_reverse_spec l Hk) as (s' & Es' & _ & Hsorted & Hstable).
  assert (s' = s) as -> by congruence.
  split; [exact El|]. split; [exact Hp|]. split; [|now split].
  rewrite <- (Permutation_length Hp).
  rewrite <- (length_map Some l), <- El, length_map. reflexivity.
Qed.

(** ** flight.py: from the main loop to the detail query *)

(** *** [strip] and [upper] *)













(** *** The sighting of a turn *)










(** *** From the loop to the detail query *)








(** ** web_server.py: the statistics *)

(** *** GROUP BY and ORDER BY cnt DESC *)

Section GroupingFacts.

Context {K : Type}.
Variable same : K -> K -> bool.
Variable tie : K -> K -> bool.
Hypothesis same_spec : forall a b, same a b = true <-> a = b.

Lemma same_refl a : same a a = true.
Proof. now apply same_spec. Qed.

Lemma same_dec (a b : K) : {a = b} + {a <> b}.
Proof.
  destruct (same a b) eqn:E; [left; now apply same_spec|].
  right. intros H. apply same_spec in H. congruence.
Qed.

Lemma count_in_cnt k k' groups :
  cnt_of same k' (count_in same k groups)
  = cnt_of same k' groups + (if same k k' then 1 else 0).
Proof.
  induction groups as [|[k0 n] rest IH]; cbn [count_in cnt_of].
  - destruct (same k k'); lia.
  - destruct (same k0 k) eqn:E; cbn [cnt_of].
    + apply same_spec in E. subst k0.
      destruct (same k k'); [reflexivity|]. lia.
    + destruct (same k0 k') eqn:E'; [|exact IH].
      apply same_spec in E'. subst k0.
      destruct (same k k') eqn:E2; [|lia].
      apply same_spec in E2. subst k'. rewrite same_refl in E. discriminate.
Qed.

Lemma count_in_keys k groups x :
  In x (map fst (count_in same k groups)) <-> x = k \/ In x (map fst groups).
Proof.
  induction groups as [|[k0 n] rest IH]; cbn [count_in map fst In].
  - intuition.
  - destruct (same k0 k) eqn:E; cbn [map fst In].
    + apply same_spec in E. subst k0. intuition.
    + rewrite IH. intuition.
Qed.

Lemma count_in_NoDup k groups :
  NoDup (map fst groups) -> NoDup (map fst (count_in same k groups)).
Proof.
  induction groups as [|[k0 n] rest IH]; cbn [count_in map fst]; intros H.
  - constructor; [intros [] | constructor].
  - apply NoDup_cons_iff in H as [H1 H2].
    destruct (same k0 k) eqn:E; cbn [map fst].
    + now constructor.
    + constructor; [|now apply IH].
      rewrite count_in_keys. intros [-> | H]; [|contradiction].
      rewrite same_refl in E. discriminate.
Qed.

Lemma count_in_pos k groups :
  (forall g, In g groups -> 1 <= snd g) ->
  forall g, In g (count_in same k groups) -> 1 <= snd g.
Proof.
  induction groups as [|[k0 n] rest IH]; cbn [count_in]; intros H g Hg.
  - destruct Hg as [<- | []]. cbn. lia.
  - destruct (same k0 k).
    + destruct Hg as [<- | Hg]; [|apply H; now right].
      specialize (H (k0, n) (or_introl eq_refl)). cbn in *. lia.
    + destruct Hg as [<- | Hg]; [apply H; now left|].
      apply IH; [|exact Hg]. intros x Hx. apply H. now right.
Qed.

Lemma fold_count_in keys : forall acc,
  NoDup (map fst acc) -> (forall g, In g acc -> 1 <= snd g) ->
  let groups := fold_left (fun groups k => count_in same k groups) keys acc in
  NoDup (map fst groups)
  /\ (forall g, In g groups -> 1 <= snd g)
  /\ (forall k, cnt_of same k groups = cnt_of same k acc + occurrences same k keys)
  /\ (forall k, In k (map fst groups) <-> In k (map fst acc) \/ In k keys).
Proof.
  induction keys as [|k0 keys IH]; intros acc Hnd Hpos; cbn [fold_left].
  - split; [exact Hnd|]. split; [exact Hpos|]. split.
    + intros k. unfold occurrences. cbn. lia.
    + intros k. cbn [In]. tauto.
  - destruct (IH (count_in same k0 acc) (count_in_NoDup k0 acc Hnd)
                (count_in_pos k0 acc Hpos)) as (H1 & H2 & H3 & H4).
    split; [exact H1|]. split; [exact H2|]. split.
    + intros k. rewrite H3, count_in_cnt. unfold occurrences.
      cbn [filter]. destruct (same k0 k); cbn [List.length]; lia.
    + intros k. rewrite H4, count_in_keys. cbn [In].
      split; [intros [[-> | H] | H] | intros [H | [-> | H]]]; auto.
Qed.

Lemma GROUP_BY_spec keys :
  NoDup (map fst (GROUP_BY same keys))
  /\ (forall g, In g (GROUP_BY same keys) -> 1 <= snd g)
  /\ (forall k, cnt_of same k (GROUP_BY same keys) = occurrences same k keys)
  /\ (forall k, In k (map fst (GROUP_BY same keys)) <-> In k keys).
Proof.
  destruct (fold_count_in keys []) as (H1 & H2 & H3 & H4);
    [constructor | intros g [] |].
  split; [exact H1|]. split; [exact H2|]. split; [exact H3|].
  intros k. split.
  - intros H. apply H4 in H as [[] | H]. exact H.
  - intros H. apply H4. now right.
Qed.

Lemma cnt_of_In k n groups :
  NoDup (map fst groups) -> In (k, n) groups -> cnt_of same k groups = n.
Proof.
  induction groups as [|[k0 n0] rest IH]; intros Hnd Hin; [destruct Hin|].
  cbn [map fst] in Hnd. apply NoDup_cons_iff in Hnd as [H1 H2].
  cbn [cnt_of]. destruct Hin as [[= -> ->] | Hin].
  - now rewrite same_refl.
  - destruct (same k0 k) eqn:E; [|now apply IH].
    apply same_spec in E. subst k0. exfalso. apply H1.
    apply in_map_iff. now exists (k, n).
Qed.

Lemma cnt_of_absent k groups :
  ~ In k (map fst groups) -> cnt_of same k groups = 0.
Proof.
  induction groups as [|[k0 n0] rest IH]; intros H; [reflexivity|].
  cbn [cnt_of]. destruct (same k0 k) eqn:E.
  - apply same_spec in E. subst k0. exfalso. apply H. now left.
  - apply IH. intros H'. apply H. now right.
Qed.

Lemma insert_by_cnt_perm g l : Permutation (g :: l) (insert_by_cnt tie g l).
Proof.
  induction l as [|h l IH]; cbn [insert_by_cnt]; [reflexivity|].
  destruct (comes_after tie g h); [|reflexivity].
  rewrite perm_swap. now constructor.
Qed.

Lemma insert_by_cnt_sorted g l :
  StronglySorted by_cnt l -> StronglySorted by_cnt (insert_by_cnt tie g l).
Proof.
  induction l as [|h l IH]; intros Hs; cbn [insert_by_cnt].
  - constructor; constructor.
  - apply StronglySorted_inv in Hs as [Hs Hh].
    unfold comes_after.
    destruct ((snd g <? snd h) || (snd g =? snd h) && tie (fst g) (fst h))
      eqn:E.
    + assert (snd g <= snd h) as Hle.
      { apply orb_true_iff in E as [E | E]; [apply Z.ltb_lt in E; lia|].
        apply andb_true_iff in E as [E _]. apply Z.eqb_eq in E. lia. }
      constructor; [now apply IH|].
      rewrite Forall_forall in Hh |- *. intros x Hx.
      apply (Permutation_in _ (Permutation_sym (insert_by_cnt_perm g l))) in Hx.
      destruct Hx as [<- | Hx]; [exact Hle | now apply Hh].
    + apply orb_false_iff in E as [E _]. apply Z.ltb_ge in E.
      constructor; [now constructor|].
      constructor; [exact E|].
      rewrite Forall_forall in Hh |- *. intros x Hx.
      specialize (Hh x Hx). unfold by_cnt in *. lia.
Qed.

Lemma ORDER_BY_cnt_spec groups :
  Permutation groups (ORDER_BY_cnt_DESC tie groups)
  /\ StronglySorted by_cnt (ORDER_BY_cnt_DESC tie groups).
Proof.
  induction groups as [|g groups [IH1 IH2]]; [split; constructor|].
  cbn [ORDER_BY_cnt_DESC fold_right]. split.
  - rewrite <- insert_by_cnt_perm. now constructor.
  - now apply insert_by_cnt_sorted.
Qed.

(** The first [n] groups of the ranking of [keys]. *)
Lemma ranked_spec (n : nat) keys :
  let l := firstn n (ORDER_BY_cnt_DESC tie (GROUP_BY same keys)) in
  (List.length l <= n)%nat
  /\ NoDup (map fst l)
  /\ (forall k c, In (k, c) l ->
        In k keys /\ c = occurrences same k keys /\ 1 <= c)
  /\ StronglySorted by_cnt l
  /\ (forall k c w, In (k, c) l -> ~ In w (map fst l) ->
        occurrences same w keys <= c)
  /\ ((List.length l < n)%nat -> forall w, In w keys -> In w (map fst l)).
Proof.
  destruct (GROUP_BY_spec keys) as (Hnd & Hpos & Hcnt & Hkeys).
  destruct (ORDER_BY_cnt_spec (GROUP_BY same keys)) as [Hperm Hsorted].
  set (groups := GROUP_BY same keys) in *.
  set (sorted := ORDER_BY_cnt_DESC tie groups) in *.
  cbv zeta.
  assert (NoDup (map fst sorted)) as Hnd'
    by (eapply Permutation_NoDup; [apply Permutation_map, Hperm | exact Hnd]).
  assert (forall k c, In (k, c) sorted ->
            In k keys /\ c = occurrences same k keys /\ 1 <= c) as Hin.
  { intros k c H.
    apply (Permutation_in _ (Permutation_sym Hperm)) in H.
    split; [|split].
    - apply Hkeys. apply in_map_iff. now exists (k, c).
    - rewrite <- Hcnt. symmetry. now apply cnt_of_In.
    - apply (Hpos _ H). }
  pose proof (firstn_skipn n sorted) as Hsplit.
  rewrite <- Hsplit in Hsorted, Hnd'.
  apply StronglySorted_app_inv in Hsorted as [Hs1 Hs2].
  rewrite map_app in Hnd'.
  split; [apply firstn_le_length|]. split; [|split; [|split; [|split]]].
  - now apply NoDup_app_remove_r in Hnd'.
  - intros k c H. apply Hin. rewrite <- Hsplit. apply in_or_app. now left.
  - exact Hs1.
  - intros k c w Hk Hw.
    assert (1 <= c) as Hc.
    { apply (Hin k c). rewrite <- Hsplit. apply in_or_app. now left. }
    rewrite <- Hcnt.
    destruct (in_dec same_dec w (map fst groups))
      as [Hg | Hg].
    + apply in_map_iff in Hg as ([w' c'] & E & Hg). cbn in E. subst w'.
      rewrite (cnt_of_In w c' groups Hnd Hg).
      apply (Permutation_in _ Hperm) in Hg. rewrite <- Hsplit in Hg.
      apply in_app_or in Hg as [Hg | Hg].
      * exfalso. apply Hw. apply in_map_iff. now exists (w, c').
      * apply (Hs2 (k, c) (w, c') Hk Hg).
    + rewrite cnt_of_absent by exact Hg. lia.
  - intros Hlen w Hw.
    assert (skipn n sorted = []) as Hskip.
    { apply skipn_all2.
      destruct (Nat.le_gt_cases (List.length sorted) n) as [?|Hgt];
        [assumption|].
      rewrite length_firstn in Hlen. lia. }
    rewrite <- (app_nil_r (firstn n sorted)), <- Hskip, Hsplit.
    apply Hkeys in Hw.
    eapply Permutation_in; [apply Permutation_map, Hperm | exact Hw].
Qed.

End GroupingFacts.

(** *** The rankings of [get_stats] *)

Lemma string_same_spec a b : String.eqb a b = true <-> a = b.
Proof. apply String.eqb_eq. Qed.

Lemma named_keys_In (col : Flight.t -> option string) rows v :
  In v (not_null (filter named (map col rows))) -> v <> "".
Proof.
  induction rows as [|f rows IH]; [intros []|].
  cbn [map filter]. destruct (col f) as [[|c s]|]; cbn; auto.
  intros [<- | H]; [discriminate | auto].
Qed.

Lemma named_keys_occurrences (col : Flight.t -> option string) rows v :
  v <> "" ->
  occurrences String.eqb v (not_null (filter named (map col rows)))
  = rows_with col v rows.
Proof.
  intros Hv. unfold occurrences, rows_with. f_equal.
  induction rows as [|f rows IH]; [reflexivity|].
  cbn [map filter]. destruct (col f) as [[|c s]|]; cbn [named blank negb
    is_empty not_null flat_map app filter sql_eq].
  - assert (String.eqb "" v = false) as ->; [|exact IH].
    apply String.eqb_neq. congruence.
  - destruct (String.eqb (String c s) v); cbn [List.length]; now rewrite <- IH.
  - exact IH.
Qed.

Lemma occurrences_pos_In v keys :
  0 < occurrences String.eqb v keys -> In v keys.
Proof.
  unfold occurrences. induction keys as [|k keys IH]; cbn; [lia|].
  destruct (String.eqb k v) eqn:E; [|auto].
  apply String.eqb_eq in E. auto.
Qed.

Lemma top_ranking tie col (n : nat) rows :
  ranking col n rows (top tie col (Z.of_nat n) rows).
Proof.
  unfold top, LIMIT.
  assert ((Z.of_nat n <? 0) = false) as -> by (apply Z.ltb_ge; lia).
  rewrite Nat2Z.id.
  set (keys := not_null (filter named (map col rows))).
  destruct (ranked_spec String.eqb tie string_same_spec n keys)
    as (H1 & H2 & H3 & H4 & H5 & H6).
  split; [exact H1|]. split; [exact H2|]. split; [|split; [|split]].
  - intros v c Hin. destruct (H3 v c Hin) as (Hk & Hc & Hpos).
    apply named_keys_In in Hk.
    split; [exact Hk|]. split; [|exact Hpos].
    rewrite Hc. now apply named_keys_occurrences.
  - exact H4.
  - intros v c w Hin Hw Hne.
    rewrite <- (named_keys_occurrences col rows w Hne).
    apply (H5 v c w Hin Hw).
  - intros Hlen w Hne Hpos. apply (H6 Hlen).
    rewrite <- (named_keys_occurrences col rows w Hne) in Hpos.
    now apply occurrences_pos_In.
Qed.

Lemma nodup_length (l : list string) :
  (List.length (nodup string_dec l) <= List.length l)%nat.
Proof.
  induction l as [|x l IH]; [constructor|].
  cbn [nodup]. destruct (in_dec string_dec x l); cbn [List.length]; lia.
Qed.

Lemma not_null_length (l : list (option string)) :
  (List.length (not_null l) <= List.length l)%nat.
Proof.
  induction l as [|[x|] l IH]; cbn [not_null flat_map app List.length] in *;
    [constructor | |]; fold (not_null l); lia.
Qed.

Lemma rows_with_le col v rows : rows_with col v rows <= Z.of_nat (List.length rows).
Proof.
  unfold rows_with. pose proof (filter_length_le (fun f => sql_eq (col f) v) rows).
  lia.
Qed.

(** X19.  The counts of [get_stats] are consistent: the unique aircraft
    of today are no more than the flights of today, which are no more
    than all flights; the top airline of today has at least one and at
    most all of today's flights, and there is none exactly when its count
    is 0. *)
Theorem stats_counts_are_consistent :
  forall (e : Engine.t) (db : table),
    let s := get_stats e db in
    0 <= Stats.unique_today s <= Stats.flights_today s
    /\ Stats.flights_today s <= Stats.total_flights s
    /\ 0 <= Stats.top_airline_today_count s <= Stats.flights_today s
    /\ (Stats.top_airline_today s = None
        <-> Stats.top_airline_today_count s = 0).
Proof.
  intros e db. cbv zeta. unfold get_stats. cbv zeta.
  cbn [Stats.unique_today Stats.flights_today Stats.total_flights
       Stats.top_airline_today Stats.top_airline_today_count].
  set (rows_today := filter _ db).
  split; [|split].
  - split; [lia|].
    pose proof (nodup_length (not_null (map key_id rows_today))).
    pose proof (not_null_length (map key_id rows_today)).
    rewrite length_map in *. lia.
  - pose proof (filter_length_le
                  (fun f => Engine.today e (Flight.seen_at f)) db).
    fold rows_today in H. lia.
  - destruct (top_ranking (Engine.tie_airline_today e) Flight.airline_name
                1 rows_today) as (_ & _ & H3 & _).
    change (Z.of_nat 1) with 1 in H3.
    destruct (top _ _ 1 rows_today) as [|[v c] l].
    + split; [lia | tauto].
    + destruct (H3 v c (or_introl eq_refl)) as (_ & Hc & Hpos).
      pose proof (rows_with_le Flight.airline_name v rows_today).
      cbn [fst snd]. split; [lia|]. split; [discriminate | lia].
Qed.

(** X20.  [top_airlines] and [top_types] rank the airline names and the
    aircraft types (model, or type code when there is no model) by their
    numbers of rows, whatever order SQLite gives to equal counts: at most
    ten entries, each a text that is not empty with the number of rows
    that carry it, no text twice, counts never increasing, no text left
    out that has more rows than a listed one, and none left out when
    fewer than ten are listed. *)
Theorem top_lists_rank_by_count :
  forall (e : Engine.t) (db : table),
    ranking Flight.airline_name 10 db (Stats.top_airlines (get_stats e db))
    /\ ranking aircraft_type 10 db (Stats.top_types (get_stats e db)).
Proof.
  intros e db. unfold get_stats. cbv zeta.
  cbn [Stats.top_airlines Stats.top_types]. split.
  - apply (top_ranking (Engine.tie_airline e) Flight.airline_name 10 db).
  - apply (top_ranking (Engine.tie_type e) aircraft_type 10 db).
Qed.

(* ===================================================================== *)
(** * The further properties on the samples                               *)
(* ===================================================================== *)

(** X1 on two sightings of the samples: hex A1B2 flying as UAL123 and hex
    C3D4 have different identities, hence different keys. *)
Lemma event_key_separates_identities_witness :
  _build_event_key (snd at_1000) = _build_event_key (snd (c3d4 noon))
  <-> identity (snd at_1000) = identity (snd (c3d4 noon)).
Proof.
  apply event_key_separates_identities; reflexivity.
Defined.

(** X5: a call that coalesces, one that raises, one without an identity
    and one that opens an event, on the table that holds the first
    event. *)
Lemma sightings_are_counted_once_witness :
  let calls := [at_1005; (noon, ual123 (Some "yesterday") None None None);
                (noon, nobody); at_1030] in
  sum_times_seen (run calls [first_event])
  = sum_times_seen [first_event] + returns calls [first_event].
Proof.
  apply sightings_are_counted_once. exact first_event_NoDup.
Defined.

(** X6: the first event before and after the later calls. *)
Lemma stored_event_is_kept_witness :
  same_event first_event first_event_again.
Proof.
  apply (stored_event_is_kept [at_1000] [at_1005; at_1030]).
  - vm_compute. left. reflexivity.
  - vm_compute. left. reflexivity.
  - reflexivity.
Defined.

(** X7 on the first event. *)
Lemma stored_key_is_key_of_columns_witness :
  Flight.event_key first_event_again
  = key_of (stored_identity first_event_again).
Proof.
  apply (stored_key_is_key_of_columns [at_1000; at_1005; at_1030]).
  vm_compute. left. reflexivity.
Defined.


(** X9: the two newest of three events. *)
Lemma recent_flights_are_the_newest_witness :
  let db := run [at_1000; (noon, nobody); at_1030] [] in
  exists rows,
    get_recent_flights 2 db = inl rows
    /\ StronglySorted (fun f g => Flight.id g < Flight.id f) rows
    /\ (forall f, In f rows -> In f db)
    /\ List.length rows
       = (if 2 <? 0 then List.length db
          else Nat.min (Z.to_nat 2) (List.length db))
    /\ (forall f g, In f rows -> In g db -> ~ In g rows ->
          Flight.id g < Flight.id f).
Proof.
  apply recent_flights_are_the_newest.
  - apply run_NoDup. constructor.
  - reflexivity.
Defined.

(** X10 with the limit that [/api/flights] takes by default. *)
Lemma recent_flights_newest_first_witness :
  get_recent_flights 50 (run [at_1000; at_1005; at_1030] [])
  = inl (LIMIT 50 (rev (run [at_1000; at_1005; at_1030] []))).
Proof.
  apply recent_flights_newest_first. reflexivity.
Defined.

(** X12: an aircraft ADSBdb did not know is not asked for again. *)
Lemma mil_lookup_is_remembered_witness :
  get_mil_aircraft_details (Some "AE01CE") one_unknown
    (Answered (Some hercules)) false
  = (not_found "AE01CE", one_unknown).
Proof.
  apply (mil_lookup_is_remembered (Some " ae01ce ") (Some "AE01CE")
           Missing one_unknown None).
  - discriminate.
  - reflexivity.
  - reflexivity.
Defined.

(** X13: a second aircraft is added to the file. *)
Lemma mil_cache_only_grows_witness :
  let file' :=
    Holding [("AE01CE", not_found "AE01CE");
             ("AE1234",
              found "AE1234" (JStr "C-130J") (JStr "C30J") (JStr "Lockheed")
                (JStr "AE1234") (JStr "US") (JStr "United States")
                (JStr "United States Air Force"))] in
  (forall k v, dict_get k (load_mil_cache one_unknown) = Some v ->
               dict_get k (load_mil_cache file') = Some v)
  /\ (forall k, k <> upper (strip (or_else (Some "ae1234") "")) ->
                dict_get k (load_mil_cache file')
                = dict_get k (load_mil_cache one_unknown))
  /\ (found "AE1234" (JStr "C-130J") (JStr "C30J") (JStr "Lockheed")
        (JStr "AE1234") (JStr "US") (JStr "United States")
        (JStr "United States Air Force") = no_hex
      \/ (exists x,
            found "AE1234" (JStr "C-130J") (JStr "C30J") (JStr "Lockheed")
              (JStr "AE1234") (JStr "US") (JStr "United States")
              (JStr "United States Air Force") = lookup_failed x) ->
      file' = one_unknown).
Proof.
  apply (mil_cache_only_grows (Some "ae1234") one_unknown _
           (Answered (Some hercules)) true).
  reflexivity.
Defined.

(** X16 on a frame of four aircraft. *)
Lemma api_mil_sorted_by_altitude_witness :
  exists l,
    map simplify frame = map Some l
    /\ Permutation l frame_sorted
    /\ 4 = Z.of_nat (List.length frame)
    /\ StronglySorted not_below frame_sorted
    /\ forall a0,
         filter (same_key a0) frame_sorted = filter (same_key a0) l.
Proof.
  apply (api_mil_sorted_by_altitude frame 4 frame_sorted). reflexivity.
Defined.


